(** * Single checks for EC keys: [paranoid_crypto/lib/ec_single_checks.py]

    A shallow embedding of the three checks [CheckValidECKey],
    [CheckWeakCurve] and [CheckWeakECPrivateKey], and the properties their
    [Check] methods have.

    The artifacts handed to a check are Python objects: the batch is a list
    of references into an object store, the same object may occur more than
    once in a batch, and a check mutates the [test_info] of the objects it is
    given.  The embedding keeps that store, threads it through a small
    state-and-exception monad, and states every property on the store before
    and after a call. *)

From Stdlib Require Import ZArith String Ascii List Lia.
From Stdlib Require Import Hexadecimal HexadecimalString HexadecimalZ.
From stdpp Require Import base decidable numbers list functions.

Open Scope Z_scope.

(* ================================================================== *)
(** * Data model *)
(* ================================================================== *)

(** [paranoid_pb2.CurveType] is a protobuf enum, an integer on the Python
    side; curve identifiers are compared with [==]. *)
Definition CurveType := Z.

(** [paranoid_pb2.ECKeyInfo]: the curve identifier and the raw coordinates
    of the public point. *)
Record ECKeyInfo := {
  curve_type : CurveType;
  x : list Byte.byte;
  y : list Byte.byte
}.

Inductive SeverityType :=
  | SEVERITY_UNKNOWN | SEVERITY_LOW | SEVERITY_MEDIUM
  | SEVERITY_HIGH | SEVERITY_CRITICAL.

(** [paranoid_pb2.TestResultsEntry]. *)
Record TestResultsEntry := {
  severity : SeverityType;
  test_name : string;
  result : bool
}.

(** The Python statement [test_result.result = True]. *)
Definition set_result (t : TestResultsEntry) (b : bool) : TestResultsEntry :=
  {| severity := severity t; test_name := test_name t; result := b |}.

(** Modelled from the spec: the layout of [paranoid_pb2.TestInfo] and the
    bodies of [util.SetTestResult] and [util.AttachInfo] are not part of the
    sources.  The spec gives them as the result-reporting interface
    [setResult(artifact, severity, flagged)] and
    [attachInfo(artifact, name, value)], so the [test_info] of an artifact is
    kept as the journal of the calls made on it, oldest first. *)
Inductive Report :=
  | ResultSet (entry : TestResultsEntry)
  | InfoAttached (name value : string).

Definition TestInfo := list Report.

(** [paranoid_pb2.ECKey]. *)
Record ECKey := {
  ec_info : ECKeyInfo;
  test_info : TestInfo
}.

(** A point is a pair of field coordinates or the point at infinity. *)
Inductive Point :=
  | Infinity
  | Affine (px py : Z).

(** Modelled from the spec: the curve class of [ec_util] is not part of the
    sources; the spec lists its parameters: prime modulus, coefficients of
    the Weierstrass equation, generator, group order and cofactor. *)
Record EcCurve := {
  p : Z;
  a : Z;
  b : Z;
  g : Point;
  n : Z;
  h : Z
}.

(** ** Python dictionaries

    A [dict] keeps its items in insertion order and holds every key once. *)
Record dict (K V : Type) := {
  items : list (K * V);
  items_unique : NoDup (items.*1)
}.
Arguments items {K V} _.
Arguments items_unique {K V} _.

(** A dictionary display [{k1: v1, ...}] with distinct keys. *)
Definition dict_literal (l : list (Z * option EcCurve))
    (distinct : Is_true (bool_decide (NoDup l.*1))) : dict Z (option EcCurve) :=
  {| items := l; items_unique := bool_decide_unpack _ distinct |}.

(** [d.get(k, default)]. *)
Fixpoint assoc_get {K V} `{EqDecision K} (l : list (K * V)) (k : K) (default : V) : V :=
  match l with
  | [] => default
  | (k', v) :: l' => if decide (k' = k) then v else assoc_get l' k default
  end.

Definition dict_get {K V} `{EqDecision K} (d : dict K V) (k : K) (default : V) : V :=
  assoc_get (items d) k default.

(** ** Python integers *)

(** [int.bit_length()]: the number of bits of the absolute value, [0] for
    [0]. *)
Definition bit_length (z : Z) : Z :=
  match z with
  | Z0 => 0
  | Zpos q | Zneg q => Z.pos (Pos.size q)
  end.

(** [format(v, "x")]: lower-case hexadecimal digits, no prefix, a leading
    minus sign for a negative number. *)
Definition format_x (v : Z) : string :=
  NilZero.string_of_int (Z.to_hex_int v).

(** The characters [format_x] may produce. *)
Definition is_lower_hex (c : ascii) : bool :=
  let k := nat_of_ascii c in
  ((48 <=? k)%nat && (k <=? 57)%nat) || ((97 <=? k)%nat && (k <=? 102)%nat).

Fixpoint string_forall (f : ascii -> bool) (s : string) : bool :=
  match s with
  | EmptyString => true
  | String c s' => f c && string_forall f s'
  end.

(** Reading a hexadecimal rendering back. *)
Definition parse_x (s : string) : option Z :=
  option_map Z.of_hex_int (NilZero.int_of_string s).

(* ================================================================== *)
(** * The object store and the monad of a check *)
(* ================================================================== *)

(** A reference to an [ECKey] object. *)
Definition loc := nat.

(** A record passed to [logging.warning]: the format string and its
    arguments. *)
Inductive LogArg :=
  | ArgStr (s : string)
  | ArgInfo (info : ECKeyInfo).

Definition LogRecord : Type := string * list LogArg.

Record World := {
  objects : loc -> ECKey;
  warnings : list LogRecord
}.

Inductive Exception := IndexError.

Inductive Outcome (A : Type) :=
  | Return (v : A)
  | Raise (e : Exception).
Arguments Return {A} _.
Arguments Raise {A} _.

(** A computation runs on a store and leaves a store, also when it raises. *)
Definition Py (A : Type) : Type := World -> Outcome A * World.

Definition ret {A} (v : A) : Py A := fun w => (Return v, w).

Definition bind {A B} (m : Py A) (k : A -> Py B) : Py B :=
  fun w =>
    match m w with
    | (Return v, w') => k v w'
    | (Raise e, w') => (Raise e, w')
    end.

Definition raise {A} (e : Exception) : Py A := fun w => (Raise e, w).

Declare Scope py_scope.
Delimit Scope py_scope with py.
Notation "'let*' x := m 'in' k" := (bind m (fun x => k))
  (at level 10, x pattern, m at level 100, k at level 200) : py_scope.
Notation "m ;; k" := (bind m (fun _ => k))
  (at level 100, k at level 200, right associativity) : py_scope.
Open Scope py_scope.

(** What a check can do to the store: log a warning, or report on the
    [test_info] of one object. *)
Inductive Effect :=
  | Warn (r : LogRecord)
  | Tell (key : loc) (r : Report).

Definition append_report (r : Report) (k : ECKey) : ECKey :=
  {| ec_info := ec_info k; test_info := test_info k ++ [r] |}.

Definition apply_effect (w : World) (e : Effect) : World :=
  match e with
  | Warn r => {| objects := objects w; warnings := warnings w ++ [r] |}
  | Tell key r =>
      {| objects := <[key := append_report r (objects w key)]> (objects w);
         warnings := warnings w |}
  end.

Definition apply_effects (es : list Effect) (w : World) : World :=
  fold_left apply_effect es w.

Definition emit (e : Effect) : Py unit := fun w => (Return tt, apply_effect w e).

(** Attribute access [key.ec_info]. *)
Definition get_ec_info (key : loc) : Py ECKeyInfo :=
  fun w => (Return (ec_info (objects w key)), w).

(** A [for] loop whose body updates the local variables [s]; [continue] is
    the body returning them unchanged. *)
Fixpoint for_each {A S} (l : list A) (body : S -> A -> Py S) (s : S) : Py S :=
  match l with
  | [] => ret s
  | v :: l' => let* s' := body s v in for_each l' body s'
  end.

(** A list comprehension [[f(v) for v in l]]. *)
Fixpoint comprehension {A B} (f : A -> Py B) (l : list A) : Py (list B) :=
  match l with
  | [] => ret []
  | v :: l' => let* r := f v in let* rs := comprehension f l' in ret (r :: rs)
  end.

(** A list comprehension [[v for v in l if c(v)]]. *)
Fixpoint comprehension_if {A} (c : A -> Py bool) (l : list A) : Py (list A) :=
  match l with
  | [] => ret []
  | v :: l' =>
      let* keep := c v in
      let* rs := comprehension_if c l' in
      ret (if keep : bool then v :: rs else rs)
  end.

(** [enumerate(l)]. *)
Definition enumerate {A} (l : list A) : list (nat * A) := imap pair l.

(** [l[i]] for [i >= 0]. *)
Definition getitem {A} (l : list A) (i : nat) : Py A :=
  match l !! i with
  | Some v => ret v
  | None => raise IndexError
  end.

Module logging.
(** [logging.warning(msg, *args)]. *)
Definition warning (msg : string) (args : list LogArg) : Py unit :=
  emit (Warn (msg, args)).
End logging.

Module util.
(** [util.SetTestResult(key.test_info, test_result)]. *)
Definition SetTestResult (key : loc) (test_result : TestResultsEntry) : Py unit :=
  emit (Tell key (ResultSet test_result)).

(** [util.AttachInfo(key.test_info, name, value)]. *)
Definition AttachInfo (key : loc) (name value : string) : Py unit :=
  emit (Tell key (InfoAttached name value)).
End util.

Module base_check.
(** The state of a check object: [__init__] of each check passes its
    severity to the base class. *)
Record ECKeyCheck := {
  check_severity : SeverityType;
  check_name : string
}.

(** Modelled from the spec: [base_check] is not part of the sources.  A
    result is created per artifact per invocation with the fixed severity
    of the check, and is not flagged until the check sets it. *)
Definition _CreateTestResult (self : ECKeyCheck) : TestResultsEntry :=
  {| severity := check_severity self;
     test_name := check_name self;
     result := false |}.
End base_check.
Import base_check.

(** What the checks use of [ec_util] and [consts]; none of it is part of the
    sources, so the checks are verified for every registry, every point
    decoder, every validity test and every batched discrete-log solver. *)
Class Env := {
  CURVE_FACTORY : dict CurveType (option EcCurve);
  PublicPoint : ECKeyInfo -> Point;
  IsValidPublicKey : EcCurve -> Point -> bool;
  ExtendedBatchDL : EcCurve -> list Point -> list (option Z);
  INFO_NAME_DISCRETE_LOG : string
}.

(* ================================================================== *)
(** * The three checks *)
(* ================================================================== *)

Module CheckValidECKey.
(** [__init__] passes the severity of the check to the base class; the name
    under which the base class reports the check is left open. *)
Definition init (name : string) : ECKeyCheck :=
  {| check_severity := SEVERITY_MEDIUM; check_name := name |}.

(** The body of the loop [for key in artifacts]. *)
Definition check_key `{Env} (self : ECKeyCheck) (any_weak : bool) (key : loc) : Py bool :=
  let test_result := _CreateTestResult self in
  let* info := get_ec_info key in
  let curve := dict_get CURVE_FACTORY (curve_type info) None in
  let* (any_weak, test_result) :=
    match curve with
    | None =>
        let* info := get_ec_info key in
        logging.warning "Unknown curve: %s" [ArgInfo info] ;;
        ret (true, set_result test_result true)
    | Some curve =>
        let* info := get_ec_info key in
        if negb (IsValidPublicKey curve (PublicPoint info)) then
          let* info := get_ec_info key in
          logging.warning "Invalid public key: %s" [ArgInfo info] ;;
          ret (true, set_result test_result true)
        else ret (any_weak, test_result)
    end in
  util.SetTestResult key test_result ;;
  ret any_weak.

Definition Check `{Env} (self : ECKeyCheck) (artifacts : list loc) : Py bool :=
  for_each artifacts (check_key self) false.
End CheckValidECKey.

Module CheckWeakCurve.
(** [__init__]. *)
Definition init (name : string) : ECKeyCheck :=
  {| check_severity := SEVERITY_MEDIUM; check_name := name |}.

(** The least bit length of the order of a curve that is not weak. *)
Definition minimal_bit_length : Z := 224.

(** The body of the loop [for key in artifacts]; [continue] leaves
    [any_weak] as it is. *)
Definition check_key `{Env} (self : ECKeyCheck) (any_weak : bool) (key : loc) : Py bool :=
  let* info := get_ec_info key in
  let curve := dict_get CURVE_FACTORY (curve_type info) None in
  match curve with
  | None => ret any_weak
  | Some curve =>
      let test_result := _CreateTestResult self in
      let* (any_weak, test_result) :=
        (if bit_length (n curve) <? minimal_bit_length then
           let* info := get_ec_info key in
           logging.warning "Weak curve: %s" [ArgInfo info] ;;
           ret (true, set_result test_result true)
         else ret (any_weak, test_result)) in
      util.SetTestResult key test_result ;;
      ret any_weak
  end.

Definition Check `{Env} (self : ECKeyCheck) (artifacts : list loc) : Py bool :=
  for_each artifacts (check_key self) false.
End CheckWeakCurve.

Module CheckWeakECPrivateKey.
(** [__init__]. *)
Definition init (name : string) : ECKeyCheck :=
  {| check_severity := SEVERITY_CRITICAL; check_name := name |}.

(** The body of the inner loop [for i, key in enumerate(keys)].  The answers
    of the solver are integers already, so [int(discrete_logs[i])] is the
    answer itself. *)
Definition report_key `{Env} (self : ECKeyCheck)
    (discrete_logs : list (option Z)) (any_weak : bool) (ik : nat * loc) : Py bool :=
  let '(i, key) := ik in
  let test_result := _CreateTestResult self in
  let* dl := getitem discrete_logs i in
  let* (any_weak, test_result) :=
    match dl with
    | Some v =>
        let discrete_log := format_x v in
        let* info := get_ec_info key in
        logging.warning "Discrete logarithm found: %s %s"
          [ArgStr discrete_log; ArgInfo info] ;;
        util.AttachInfo key INFO_NAME_DISCRETE_LOG discrete_log ;;
        ret (true, set_result test_result true)
    | None => ret (any_weak, test_result)
    end in
  util.SetTestResult key test_result ;;
  ret any_weak.

(** The body of the outer loop [for curve_id, curve in ...items()]. *)
Definition check_curve `{Env} (self : ECKeyCheck) (artifacts : list loc)
    (any_weak : bool) (entry : CurveType * option EcCurve) : Py bool :=
  let '(curve_id, curve) := entry in
  match curve with
  | None => ret any_weak
  | Some curve =>
      let* keys := comprehension_if (fun key =>
                let* info := get_ec_info key in
                ret (bool_decide (curve_type info = curve_id))) artifacts in
      match keys with
      | [] => ret any_weak
      | _ =>
          let* points := comprehension (fun key =>
                      let* info := get_ec_info key in
                      ret (PublicPoint info)) keys in
          let discrete_logs := ExtendedBatchDL curve points in
          for_each (enumerate keys) (report_key self discrete_logs) any_weak
      end
  end.

Definition Check `{Env} (self : ECKeyCheck) (artifacts : list loc) : Py bool :=
  for_each (items CURVE_FACTORY) (check_curve self artifacts) false.
End CheckWeakECPrivateKey.

(* ================================================================== *)
(** * What a call leaves behind *)
(* ================================================================== *)

(** The [ec_info] every object of a store carries. *)
Definition infos (w : World) : loc -> ECKeyInfo := fun key => ec_info (objects w key).

(** [w] carries the same [ec_info] in every object as [w0]. *)
Definition same_infos (w0 w : World) : Prop := forall key, infos w key = infos w0 key.

(** The reports a call added to the [test_info] of [key], when [w] is the
    store before the call and [w'] the store after it. *)
Definition written (w w' : World) (key : loc) : list Report :=
  drop (length (test_info (objects w key))) (test_info (objects w' key)).

(** The warnings a call logged. *)
Definition logged (w w' : World) : list LogRecord :=
  drop (length (warnings w)) (warnings w').

Definition is_result (r : Report) : bool :=
  match r with ResultSet _ => true | InfoAttached _ _ => false end.

Definition is_flagging (r : Report) : bool :=
  match r with ResultSet e => result e | InfoAttached _ _ => false end.

(** How often the result slot was written. *)
Definition result_writes (rs : list Report) : nat :=
  length (filter (fun r => is_result r = true) rs).

(** Whether some result written flags the artifact. *)
Definition flagged (rs : list Report) : bool := existsb is_flagging rs.

(** The value of the result slot after the reports [rs]: the last result
    written, [None] when none was. *)
Fixpoint verdict (rs : list Report) : option bool :=
  match rs with
  | [] => None
  | r :: rs' =>
      match verdict rs' with
      | Some v => Some v
      | None => match r with ResultSet e => Some (result e) | InfoAttached _ _ => None end
      end
  end.

(** The diagnostics attached, as pairs of name and value. *)
Fixpoint attached (rs : list Report) : list (string * string) :=
  match rs with
  | [] => []
  | ResultSet _ :: rs' => attached rs'
  | InfoAttached name value :: rs' => (name, value) :: attached rs'
  end.

(** How often [key] occurs in a batch. *)
Definition occurrences (key : loc) (l : list loc) : nat :=
  length (filter (fun k => k = key) l).

(** The projections of a list of effects. *)
Fixpoint reports_on (key : loc) (es : list Effect) : list Report :=
  match es with
  | [] => []
  | Warn _ :: es' => reports_on key es'
  | Tell k r :: es' =>
      if decide (k = key) then r :: reports_on key es' else reports_on key es'
  end.

Fixpoint warned (es : list Effect) : list LogRecord :=
  match es with
  | [] => []
  | Warn r :: es' => r :: warned es'
  | Tell _ _ :: es' => warned es'
  end.

(** An effect that reports on no object outside [keys]. *)
Definition tells_within (keys : list loc) (e : Effect) : Prop :=
  match e with
  | Warn _ => True
  | Tell k _ => k ∈ keys
  end.

(** [m], run on [w], has the effects [es] in this order and the outcome
    [o]. *)
Definition performs {A} (m : Py A) (w : World) (es : list Effect) (o : Outcome A) : Prop :=
  m w = (o, apply_effects es w).

(** The loop [for_each] over bodies that are given by their effects. *)
Fixpoint for_each_pure {A S} (step : S -> A -> list Effect * Outcome S)
    (l : list A) (s : S) : list Effect * Outcome S :=
  match l with
  | [] => ([], Return s)
  | v :: l' =>
      match step s v with
      | (es, Return s') =>
          let '(es', o) := for_each_pure step l' s' in (es ++ es', o)
      | (es, Raise e) => (es, Raise e)
      end
  end.

(** The effects of the loop bodies of the three checks, as functions of the
    [ec_info] of the objects. *)
Section Denotation.
Context `{Env} (self : ECKeyCheck) (info : loc -> ECKeyInfo).

Definition resolve (key : loc) : option EcCurve :=
  dict_get CURVE_FACTORY (curve_type (info key)) None.

Definition flag_entry : TestResultsEntry := set_result (_CreateTestResult self) true.
Definition clear_entry : TestResultsEntry := _CreateTestResult self.

Definition valid_effects (key : loc) : list Effect :=
  match resolve key with
  | None =>
      [Warn ("Unknown curve: %s"%string, [ArgInfo (info key)]);
       Tell key (ResultSet flag_entry)]
  | Some curve =>
      if IsValidPublicKey curve (PublicPoint (info key))
      then [Tell key (ResultSet clear_entry)]
      else [Warn ("Invalid public key: %s"%string, [ArgInfo (info key)]);
            Tell key (ResultSet flag_entry)]
  end.

Definition valid_flag (key : loc) : bool :=
  match resolve key with
  | None => true
  | Some curve => negb (IsValidPublicKey curve (PublicPoint (info key)))
  end.

Definition weak_curve_effects (key : loc) : list Effect :=
  match resolve key with
  | None => []
  | Some curve =>
      if bit_length (n curve) <? 224
      then [Warn ("Weak curve: %s"%string, [ArgInfo (info key)]);
            Tell key (ResultSet flag_entry)]
      else [Tell key (ResultSet clear_entry)]
  end.

Definition weak_curve_flag (key : loc) : bool :=
  match resolve key with
  | None => false
  | Some curve => bit_length (n curve) <? 224
  end.

(** What the weak private key check does for one key and its answer. *)
Definition dl_effects (key : loc) (dl : option Z) : list Effect :=
  match dl with
  | Some v =>
      [Warn ("Discrete logarithm found: %s %s"%string,
             [ArgStr (format_x v); ArgInfo (info key)]);
       Tell key (InfoAttached INFO_NAME_DISCRETE_LOG (format_x v));
       Tell key (ResultSet flag_entry)]
  | None => [Tell key (ResultSet clear_entry)]
  end.

Definition report_key_step (discrete_logs : list (option Z))
    (any_weak : bool) (ik : nat * loc) : list Effect * Outcome bool :=
  match discrete_logs !! ik.1 with
  | Some dl => (dl_effects ik.2 dl, Return (any_weak || bool_decide (is_Some dl)))
  | None => ([], Raise IndexError)
  end.

(** The keys of the batch of [curve_id], and the answers for them. *)
Definition batch (artifacts : list loc) (curve_id : CurveType) : list loc :=
  filter (fun key => curve_type (info key) = curve_id) artifacts.

Definition batch_logs (artifacts : list loc) (curve_id : CurveType)
    (curve : EcCurve) : list (option Z) :=
  ExtendedBatchDL curve ((fun key => PublicPoint (info key)) <$> batch artifacts curve_id).

Definition check_curve_step (artifacts : list loc) (any_weak : bool)
    (entry : CurveType * option EcCurve) : list Effect * Outcome bool :=
  match entry.2 with
  | None => ([], Return any_weak)
  | Some curve =>
      for_each_pure (report_key_step (batch_logs artifacts entry.1 curve))
        (enumerate (batch artifacts entry.1)) any_weak
  end.

(** The reports of the weak private key check for one answer. *)
Definition dl_reports (dl : option Z) : list Report :=
  match dl with
  | Some v => [InfoAttached INFO_NAME_DISCRETE_LOG (format_x v);
               ResultSet flag_entry]
  | None => [ResultSet clear_entry]
  end.

(** The effects of one turn of the outer loop when the solver answers
    for every key of the batch. *)
Definition batch_effects (artifacts : list loc)
    (entry : CurveType * option EcCurve) : list Effect :=
  match entry.2 with
  | None => []
  | Some curve =>
      flat_map (fun kd => dl_effects kd.1 kd.2)
        (zip (batch artifacts entry.1) (batch_logs artifacts entry.1 curve))
  end.

(** Whether one turn of the outer loop sets [any_weak]. *)
Definition batch_flag (artifacts : list loc)
    (entry : CurveType * option EcCurve) : bool :=
  match entry.2 with
  | None => false
  | Some curve =>
      existsb (fun kd => bool_decide (is_Some kd.2))
        (zip (batch artifacts entry.1) (batch_logs artifacts entry.1 curve))
  end.

(** The reports for [key] among those for the keys [keys] and their
    answers [dls], position by position. *)
Definition key_reports (key : loc) (keys : list loc) (dls : list (option Z)) : list Report :=
  flat_map (fun kd => if decide (kd.1 = key) then dl_reports kd.2 else [])
    (zip keys dls).
End Denotation.

(** The solver answers for every point it is given. *)
Definition answers_every_point `{Env} : Prop :=
  forall curve points, (length points <= length (ExtendedBatchDL curve points))%nat.

(** A rendering without its sign. *)
Definition unsigned_part (s : string) : string :=
  match s with
  | String c s' => if Ascii.eqb c "-" then s' else s
  | EmptyString => s
  end.

(** The environment [E] with another registry. *)
Definition with_factory (E : Env) (F : dict CurveType (option EcCurve)) : Env :=
  {| CURVE_FACTORY := F;
     PublicPoint := @PublicPoint E;
     IsValidPublicKey := @IsValidPublicKey E;
     ExtendedBatchDL := @ExtendedBatchDL E;
     INFO_NAME_DISCRETE_LOG := @INFO_NAME_DISCRETE_LOG E |}.

(** The call [m] on the batch [artifacts] returns, and returns [True] exactly
    when it flagged some artifact of the batch. *)
Definition returns_any_flagged (m : Py bool) (artifacts : list loc) (w : World) : Prop :=
  exists any_weak,
    (m w).1 = Return any_weak /\
    (any_weak = true <->
     exists key, key ∈ artifacts /\ flagged (written w (m w).2 key) = true).

(** Running [m] a second time, on the store the first run left, has the
    outcome of the first run, writes the same reports to every object and
    logs the same warnings. *)
Definition repeats_itself (m : Py bool) (w : World) : Prop :=
  let r1 := m w in
  let r2 := m r1.2 in
  r2.1 = r1.1
  /\ (forall key, written r1.2 r2.2 key = written w r1.2 key)
  /\ logged r1.2 r2.2 = logged w r1.2.

(** ** A small registry and store to run the checks on *)

Module Demo.
(** An order of exactly 224 bits, below the nominal size [2 ^ 224]. *)
Definition strong : EcCurve :=
  {| p := 23; a := 1; b := 1; g := Affine 0 1; n := 2 ^ 223; h := 1 |}.

(** An order of 223 bits. *)
Definition weak : EcCurve :=
  {| p := 23; a := 1; b := 1; g := Affine 0 1; n := 2 ^ 223 - 1; h := 1 |}.

Definition registry : dict CurveType (option EcCurve) :=
  dict_literal [(1, Some strong); (2, Some weak); (3, None)] I.

(** [registry] without the identifier [3]. *)
Definition registry_without_3 : dict CurveType (option EcCurve) :=
  dict_literal [(1, Some strong); (2, Some weak)] I.

Definition empty_registry : dict CurveType (option EcCurve) :=
  dict_literal [] I.

Definition on_curve (curve : EcCurve) (pt : Point) : bool :=
  match pt with
  | Infinity => false
  | Affine px py =>
      (py * py) mod p curve =? (px * px * px + a curve * px + b curve) mod p curve
  end.

Definition solver (curve : EcCurve) (points : list Point) : list (option Z) :=
  (fun pt => match pt with
             | Affine 0 _ => Some 43981
             | _ => None
             end) <$> points.

Definition env_with (F : dict CurveType (option EcCurve)) : Env :=
  {| CURVE_FACTORY := F;
     PublicPoint := fun info =>
       Affine (Z.of_nat (length (x info))) (Z.of_nat (length (y info)));
     IsValidPublicKey := on_curve;
     ExtendedBatchDL := solver;
     INFO_NAME_DISCRETE_LOG := "discrete_log" |}.

Definition env : Env := env_with registry.

(** [env] with a solver that gives no answers. *)
Definition env_silent_solver : Env :=
  {| CURVE_FACTORY := registry;
     PublicPoint := @PublicPoint env;
     IsValidPublicKey := on_curve;
     ExtendedBatchDL := fun _ _ => [];
     INFO_NAME_DISCRETE_LOG := "discrete_log" |}.

(** Object [l] carries the curve identifier [l]; objects with an even
    reference carry the point [(0, 1)], the others [(1, 0)]. *)
Definition store : World :=
  {| objects := fun l =>
       {| ec_info :=
            {| curve_type := Z.of_nat l;
               x := if Nat.even l then [] else [Byte.x01];
               y := if Nat.even l then [Byte.x01] else [] |};
          test_info := [] |};
     warnings := [] |}.

Definition self : ECKeyCheck := CheckWeakECPrivateKey.init "CheckWeakECPrivateKey".
End Demo.

(** ** Statements about the checks taken together *)

(** The environment [E] with another batched solver. *)
Definition with_solver (E : Env)
    (solver : EcCurve -> list Point -> list (option Z)) : Env :=
  {| CURVE_FACTORY := @CURVE_FACTORY E;
     PublicPoint := @PublicPoint E;
     IsValidPublicKey := @IsValidPublicKey E;
     ExtendedBatchDL := solver;
     INFO_NAME_DISCRETE_LOG := @INFO_NAME_DISCRETE_LOG E |}.

(** The three checks on a batch, each with its own check object. *)
Definition checks `{Env} (self : ECKeyCheck) (artifacts : list loc) : list (Py bool) :=
  [CheckValidECKey.Check self artifacts;
   CheckWeakCurve.Check self artifacts;
   CheckWeakECPrivateKey.Check self artifacts].

(** [m2], run after [m1], has the outcome it has when run alone, writes the
    same reports to every object and logs the same warnings. *)
Definition undisturbed (m1 m2 : Py bool) (w : World) : Prop :=
  let r1 := m1 w in
  let r2 := m2 r1.2 in
  let alone := m2 w in
  r2.1 = alone.1
  /\ (forall key, written r1.2 r2.2 key = written w alone.2 key)
  /\ logged r1.2 r2.2 = logged w alone.2.

(** On every store that carries the [ec_info] of [w], [m] has the same
    effects and the same outcome. *)
Definition traces {A} (m : Py A) (w : World) : Prop :=
  exists es o, forall w1, same_infos w w1 -> performs m w1 es o.

(** A report that a check object [self] may write: a result with the
    severity and the name of [self], or a diagnostic under [name]. *)
Definition own_report (self : ECKeyCheck) (name : string) (r : Report) : Prop :=
  match r with
  | ResultSet e => severity e = check_severity self /\ test_name e = check_name self
  | InfoAttached name' value => name' = name /\ exists v, value = format_x v
  end.

(** An effect whose report, if it has one, satisfies [Q]. *)
Definition tells_only (Q : Report -> Prop) (e : Effect) : Prop :=
  match e with
  | Warn _ => True
  | Tell _ r => Q r
  end.

(** The warning [CheckValidECKey.Check] logs for an artifact, if any. *)
Definition valid_warning `{Env} (info : ECKeyInfo) : option LogRecord :=
  match dict_get CURVE_FACTORY (curve_type info) None with
  | None => Some ("Unknown curve: %s"%string, [ArgInfo info])
  | Some curve =>
      if IsValidPublicKey curve (PublicPoint info) then None
      else Some ("Invalid public key: %s"%string, [ArgInfo info])
  end.

(** The warning [CheckWeakCurve.Check] logs for an artifact, if any. *)
Definition weak_curve_warning `{Env} (info : ECKeyInfo) : option LogRecord :=
  match dict_get CURVE_FACTORY (curve_type info) None with
  | None => None
  | Some curve =>
      if bit_length (n curve) <? 224
      then Some ("Weak curve: %s"%string, [ArgInfo info])
      else None
  end.

(** The solver answered for every key of the batch of a registry entry. *)
Definition answered `{Env} (info : loc -> ECKeyInfo) (artifacts : list loc)
    (entry : CurveType * option EcCurve) : Prop :=
  match entry.2 with
  | None => True
  | Some curve =>
      (length (batch info artifacts entry.1)
       <= length (batch_logs info artifacts entry.1 curve))%nat
  end.

(** A solver that differs from [Demo.solver] on the empty list of points
    only. *)
Definition eager_solver (curve : EcCurve) (points : list Point) : list (option Z) :=
  match points with
  | [] => [Some 1]
  | _ => Demo.solver curve points
  end.

(* ================================================================== *)
(** * Python integers: bit length and hexadecimal rendering *)
(* ================================================================== *)

Lemma bit_length_log2 (z : Z) : z <> 0 -> bit_length z = Z.log2 (Z.abs z) + 1.
Proof.
  destruct z as [|q|q]; [congruence | |]; intros _; simpl;
    destruct q; simpl; rewrite ?Pos2Z.inj_succ; lia.
Qed.

Lemma bit_length_bounds (z : Z) :
  z <> 0 -> 2 ^ (bit_length z - 1) <= Z.abs z < 2 ^ bit_length z.
Proof.
  intros Hz. rewrite (bit_length_log2 z Hz).
  replace (Z.log2 (Z.abs z) + 1 - 1) with (Z.log2 (Z.abs z)) by lia.
  pose proof (Z.log2_spec (Z.abs z)) as Hs. unfold Z.succ in Hs. lia.
Qed.

Lemma bit_length_lt (z k : Z) : 0 < k -> bit_length z < k <-> Z.abs z < 2 ^ (k - 1).
Proof.
  intros Hk. destruct (Z.eq_dec z 0) as [->|Hz].
  - simpl. split; intros _; [apply Z.pow_pos_nonneg|]; lia.
  - rewrite (bit_length_log2 z Hz).
    rewrite (Z.log2_lt_pow2 (Z.abs z) (k - 1)) by lia. lia.
Qed.

Lemma string_of_uint_lower_hex (d : Hexadecimal.uint) :
  string_forall is_lower_hex (NilEmpty.string_of_uint d) = true.
Proof. induction d; simpl; auto. Qed.

Lemma format_x_lower_hex (v : Z) :
  0 <= v -> string_forall is_lower_hex (format_x v) = true.
Proof.
  intros Hv. unfold format_x. destruct v as [|q|q]; [reflexivity | | lia].
  simpl. pose proof (HexadecimalPos.Unsigned.to_uint_nonnil q) as Hn.
  unfold NilZero.string_of_uint.
  destruct (Pos.to_hex_uint q) eqn:E; try congruence;
    rewrite <- E; apply string_of_uint_lower_hex.
Qed.

Lemma format_x_negative (v : Z) :
  v < 0 -> format_x v = String "-" (format_x (- v)).
Proof. destruct v as [|q|q]; try lia. reflexivity. Qed.

Lemma parse_format_x (v : Z) : parse_x (format_x v) = Some v.
Proof.
  unfold parse_x, format_x. rewrite NilZero.isi.
  - simpl. f_equal. apply HexadecimalZ.of_to.
  - destruct v; simpl; try discriminate.
    intros [= E]. exact (HexadecimalPos.Unsigned.to_uint_nonnil _ E).
  - destruct v; simpl; try discriminate.
    intros [= E]. exact (HexadecimalPos.Unsigned.to_uint_nonnil _ E).
Qed.

Lemma format_x_inj (v v' : Z) : format_x v = format_x v' -> v = v'.
Proof.
  intros E. apply (f_equal parse_x) in E. rewrite !parse_format_x in E. congruence.
Qed.

(* ================================================================== *)
(** * Effects on the store *)
(* ================================================================== *)

Lemma same_infos_refl (w : World) : same_infos w w.
Proof. intros key. reflexivity. Qed.

Lemma apply_effects_app (es1 es2 : list Effect) (w : World) :
  apply_effects (es1 ++ es2) w = apply_effects es2 (apply_effects es1 w).
Proof. unfold apply_effects. apply fold_left_app. Qed.

Lemma infos_apply_effect (w : World) (e : Effect) (key : loc) :
  infos (apply_effect w e) key = infos w key.
Proof.
  destruct e as [r|k r]; unfold infos; simpl; [reflexivity|].
  destruct (decide (k = key)) as [->|Hne].
  - rewrite fn_lookup_insert. reflexivity.
  - rewrite fn_lookup_insert_ne by congruence. reflexivity.
Qed.

Lemma infos_apply_effects (es : list Effect) (w : World) (key : loc) :
  infos (apply_effects es w) key = infos w key.
Proof.
  revert w. induction es as [|e es IH]; intros w; [reflexivity|].
  simpl. rewrite IH. apply infos_apply_effect.
Qed.

Lemma same_infos_apply_effects (es : list Effect) (w0 w : World) :
  same_infos w0 w -> same_infos w0 (apply_effects es w).
Proof. intros Hs key. rewrite infos_apply_effects. apply Hs. Qed.

Lemma test_info_apply_effects (es : list Effect) (w : World) (key : loc) :
  test_info (objects (apply_effects es w) key)
  = test_info (objects w key) ++ reports_on key es.
Proof.
  revert w. induction es as [|e es IH]; intros w; simpl.
  - symmetry. apply app_nil_r.
  - rewrite IH. destruct e as [r|k r]; simpl; [reflexivity|].
    destruct (decide (k = key)) as [->|Hne].
    + rewrite fn_lookup_insert. simpl. rewrite <- app_assoc. reflexivity.
    + rewrite fn_lookup_insert_ne by congruence. reflexivity.
Qed.

Lemma warnings_apply_effects (es : list Effect) (w : World) :
  warnings (apply_effects es w) = warnings w ++ warned es.
Proof.
  revert w. induction es as [|e es IH]; intros w; simpl.
  - symmetry. apply app_nil_r.
  - rewrite IH. destruct e as [r|k r]; simpl; [|reflexivity].
    rewrite <- app_assoc. reflexivity.
Qed.

Lemma written_apply_effects (es : list Effect) (w : World) (key : loc) :
  written w (apply_effects es w) key = reports_on key es.
Proof. unfold written. rewrite test_info_apply_effects. apply drop_app_length. Qed.

Lemma logged_apply_effects (es : list Effect) (w : World) :
  logged w (apply_effects es w) = warned es.
Proof. unfold logged. rewrite warnings_apply_effects. apply drop_app_length. Qed.

Lemma reports_on_app (key : loc) (es1 es2 : list Effect) :
  reports_on key (es1 ++ es2) = reports_on key es1 ++ reports_on key es2.
Proof.
  induction es1 as [|[r|k r] es1 IH]; simpl; auto.
  destruct (decide (k = key)); simpl; congruence.
Qed.

Lemma warned_app (es1 es2 : list Effect) :
  warned (es1 ++ es2) = warned es1 ++ warned es2.
Proof. induction es1 as [|[r|k r] es1 IH]; simpl; congruence. Qed.

Lemma reports_on_flat_map {A} (key : loc) (eff : A -> list Effect) (l : list A) :
  reports_on key (flat_map eff l) = flat_map (fun v => reports_on key (eff v)) l.
Proof.
  induction l as [|v l IH]; simpl; [reflexivity|].
  rewrite reports_on_app, IH. reflexivity.
Qed.

Lemma warned_flat_map {A} (eff : A -> list Effect) (l : list A) :
  warned (flat_map eff l) = flat_map (fun v => warned (eff v)) l.
Proof.
  induction l as [|v l IH]; simpl; [reflexivity|].
  rewrite warned_app, IH. reflexivity.
Qed.

(** ** Loops *)

Lemma for_each_performs {A S} (w0 : World) (body : S -> A -> Py S)
    (step : S -> A -> list Effect * Outcome S) (l : list A) :
  (forall s v w, v ∈ l -> same_infos w0 w ->
     performs (body s v) w (step s v).1 (step s v).2) ->
  forall s w, same_infos w0 w ->
    performs (for_each l body s) w (for_each_pure step l s).1 (for_each_pure step l s).2.
Proof.
  induction l as [|v l IH]; intros Hbody s w Hw.
  - reflexivity.
  - unfold performs in *. simpl. unfold bind.
    rewrite (Hbody s v w) by (auto; left).
    destruct (step s v) as [es [s'|e]]; simpl; [|reflexivity].
    rewrite IH.
    + destruct (for_each_pure step l s') as [es' o]. simpl.
      rewrite apply_effects_app. reflexivity.
    + intros s0 v0 w1 Hin. apply Hbody. right. exact Hin.
    + apply same_infos_apply_effects, Hw.
Qed.

(** A loop whose body cannot raise and only ever sets the flag. *)
Lemma for_each_pure_flat {A} (step : bool -> A -> list Effect * Outcome bool)
    (eff : A -> list Effect) (flag : A -> bool) (l : list A) :
  (forall s v, v ∈ l -> step s v = (eff v, Return (s || flag v))) ->
  forall s, for_each_pure step l s = (flat_map eff l, Return (s || existsb flag l)).
Proof.
  induction l as [|v l IH]; intros Hstep s; simpl.
  - rewrite orb_false_r. reflexivity.
  - rewrite Hstep by left. rewrite IH.
    + rewrite orb_assoc. reflexivity.
    + intros s0 v0 Hin. apply Hstep. right. exact Hin.
Qed.

Lemma for_each_pure_ext {A S} (step step' : S -> A -> list Effect * Outcome S)
    (l : list A) :
  (forall s v, v ∈ l -> step s v = step' s v) ->
  forall s, for_each_pure step l s = for_each_pure step' l s.
Proof.
  induction l as [|v l IH]; intros Hstep s; simpl; [reflexivity|].
  rewrite Hstep by left. destruct (step' s v) as [es [s'|e]]; [|reflexivity].
  rewrite IH; [reflexivity|]. intros s0 v0 Hin. apply Hstep. right. exact Hin.
Qed.

Lemma comprehension_if_filter (w : World) (curve_id : CurveType) (l : list loc) :
  comprehension_if (fun key =>
      let* info := get_ec_info key in
      ret (bool_decide (curve_type info = curve_id))) l w
  = (Return (filter (fun key => curve_type (infos w key) = curve_id) l), w).
Proof.
  induction l as [|v l IH]; [reflexivity|].
  simpl. unfold bind at 1. unfold bind at 1. simpl.
  unfold bind at 1. rewrite IH. unfold ret, infos. simpl.
  rewrite filter_cons. unfold infos.
  destruct (decide (curve_type (ec_info (objects w v)) = curve_id)) as [E|E].
  - rewrite bool_decide_eq_true_2 by exact E. reflexivity.
  - rewrite bool_decide_eq_false_2 by exact E. reflexivity.
Qed.

Lemma comprehension_points `{Env} (w : World) (l : list loc) :
  comprehension (fun key =>
      let* info := get_ec_info key in ret (PublicPoint info)) l w
  = (Return ((fun key => PublicPoint (infos w key)) <$> l), w).
Proof.
  induction l as [|v l IH]; [reflexivity|].
  simpl. unfold bind at 1. unfold bind at 1. simpl.
  unfold bind at 1. rewrite IH. reflexivity.
Qed.

(* ================================================================== *)
(** * The effects of the three checks *)
(* ================================================================== *)

Ltac run_py :=
  unfold performs, bind, get_ec_info, logging.warning, util.SetTestResult,
    util.AttachInfo, emit, ret, raise; simpl.

Section Effects.
Context `{Env} (self : ECKeyCheck) (w0 : World).

Lemma valid_body_performs (any_weak : bool) (key : loc) (w : World) :
  same_infos w0 w ->
  performs (CheckValidECKey.check_key self any_weak key) w
    (valid_effects self (infos w0) key)
    (Return (any_weak || valid_flag (infos w0) key)).
Proof.
  intros Hw. pose proof (Hw key) as E. unfold infos in E.
  unfold CheckValidECKey.check_key, valid_effects, valid_flag, resolve, infos.
  run_py. rewrite E.
  destruct (dict_get CURVE_FACTORY _ None) as [curve|]; simpl.
  - rewrite E.
    destruct (IsValidPublicKey curve _); simpl;
      rewrite ?E, ?orb_true_r, ?orb_false_r; reflexivity.
  - rewrite E, orb_true_r. reflexivity.
Qed.

Lemma CheckValidECKey_performs (artifacts : list loc) (w : World) :
  same_infos w0 w ->
  performs (CheckValidECKey.Check self artifacts) w
    (flat_map (valid_effects self (infos w0)) artifacts)
    (Return (existsb (valid_flag (infos w0)) artifacts)).
Proof.
  intros Hw. unfold CheckValidECKey.Check.
  pose proof (for_each_performs w0 _
    (fun s key => (valid_effects self (infos w0) key,
                   Return (s || valid_flag (infos w0) key))) artifacts
    (fun s key w1 _ Hw1 => valid_body_performs s key w1 Hw1) false w Hw) as P.
  rewrite (for_each_pure_flat _ (valid_effects self (infos w0))
             (valid_flag (infos w0))) in P by reflexivity.
  exact P.
Qed.

Lemma weak_curve_body_performs (any_weak : bool) (key : loc) (w : World) :
  same_infos w0 w ->
  performs (CheckWeakCurve.check_key self any_weak key) w
    (weak_curve_effects self (infos w0) key)
    (Return (any_weak || weak_curve_flag (infos w0) key)).
Proof.
  intros Hw. pose proof (Hw key) as E. unfold infos in E.
  unfold CheckWeakCurve.check_key, weak_curve_effects, weak_curve_flag, resolve,
    infos, CheckWeakCurve.minimal_bit_length. run_py. rewrite E.
  destruct (dict_get CURVE_FACTORY _ None) as [curve|]; simpl.
  - destruct (bit_length (n curve) <? 224); simpl;
      rewrite ?E, ?orb_true_r, ?orb_false_r; reflexivity.
  - rewrite orb_false_r. reflexivity.
Qed.

Lemma CheckWeakCurve_performs (artifacts : list loc) (w : World) :
  same_infos w0 w ->
  performs (CheckWeakCurve.Check self artifacts) w
    (flat_map (weak_curve_effects self (infos w0)) artifacts)
    (Return (existsb (weak_curve_flag (infos w0)) artifacts)).
Proof.
  intros Hw. unfold CheckWeakCurve.Check.
  pose proof (for_each_performs w0 _
    (fun s key => (weak_curve_effects self (infos w0) key,
                   Return (s || weak_curve_flag (infos w0) key))) artifacts
    (fun s key w1 _ Hw1 => weak_curve_body_performs s key w1 Hw1) false w Hw) as P.
  rewrite (for_each_pure_flat _ (weak_curve_effects self (infos w0))
             (weak_curve_flag (infos w0))) in P by reflexivity.
  exact P.
Qed.

Lemma report_key_performs (discrete_logs : list (option Z)) (any_weak : bool)
    (ik : nat * loc) (w : World) :
  same_infos w0 w ->
  performs (CheckWeakECPrivateKey.report_key self discrete_logs any_weak ik) w
    (report_key_step self (infos w0) discrete_logs any_weak ik).1
    (report_key_step self (infos w0) discrete_logs any_weak ik).2.
Proof.
  intros Hw. destruct ik as [i key].
  pose proof (Hw key) as E. unfold infos in E.
  unfold CheckWeakECPrivateKey.report_key, report_key_step, getitem, infos.
  simpl. destruct (discrete_logs !! i) as [[v|]|]; run_py.
  - rewrite E, orb_true_r. reflexivity.
  - rewrite orb_false_r. reflexivity.
  - reflexivity.
Qed.

Lemma batch_same_infos (artifacts : list loc) (curve_id : CurveType) (w : World) :
  same_infos w0 w ->
  filter (fun key => curve_type (infos w key) = curve_id) artifacts
  = batch (infos w0) artifacts curve_id.
Proof.
  intros Hw. unfold batch. apply list_filter_iff. intros key. rewrite (Hw key).
  reflexivity.
Qed.

Lemma check_curve_performs (artifacts : list loc) (any_weak : bool)
    (entry : CurveType * option EcCurve) (w : World) :
  same_infos w0 w ->
  performs (CheckWeakECPrivateKey.check_curve self artifacts any_weak entry) w
    (check_curve_step self (infos w0) artifacts any_weak entry).1
    (check_curve_step self (infos w0) artifacts any_weak entry).2.
Proof.
  intros Hw. destruct entry as [curve_id [curve|]]; [|reflexivity].
  unfold CheckWeakECPrivateKey.check_curve, check_curve_step, batch_logs. simpl.
  unfold performs, bind at 1. rewrite comprehension_if_filter.
  rewrite (batch_same_infos artifacts curve_id w Hw).
  destruct (batch (infos w0) artifacts curve_id) as [|k ks] eqn:Ek; [reflexivity|].
  unfold bind at 1. rewrite comprehension_points.
  erewrite (list_fmap_ext _ (fun key => PublicPoint (infos w0 key)));
    [|intros ? key ?; rewrite (Hw key); reflexivity].
  apply (for_each_performs w0); [|exact Hw].
  intros s v w1 _ Hw1. apply report_key_performs, Hw1.
Qed.

Lemma CheckWeakECPrivateKey_performs (artifacts : list loc) (w : World) :
  same_infos w0 w ->
  performs (CheckWeakECPrivateKey.Check self artifacts) w
    (for_each_pure (check_curve_step self (infos w0) artifacts)
       (items CURVE_FACTORY) false).1
    (for_each_pure (check_curve_step self (infos w0) artifacts)
       (items CURVE_FACTORY) false).2.
Proof.
  intros Hw. unfold CheckWeakECPrivateKey.Check.
  apply (for_each_performs w0); [|exact Hw].
  intros s v w1 _ Hw1. apply check_curve_performs, Hw1.
Qed.
End Effects.

(** ** The weak private key check when the solver answers for every point *)

Section PrivateKeyEffects.
Context `{Env} (self : ECKeyCheck) (info : loc -> ECKeyInfo).

Lemma report_keys_flat (dls : list (option Z)) (keys : list loc) :
  forall (j : nat) (s : bool),
  (length keys <= length (drop j dls))%nat ->
  for_each_pure (report_key_step self info dls)
    (imap (fun i key => ((j + i)%nat, key)) keys) s
  = (flat_map (fun kd => dl_effects self info kd.1 kd.2) (zip keys (drop j dls)),
     Return (s || existsb (fun kd => bool_decide (is_Some kd.2)) (zip keys (drop j dls)))).
Proof.
  induction keys as [|k ks IH]; intros j s Hlen.
  - simpl. rewrite orb_false_r. reflexivity.
  - destruct (drop j dls) as [|dl rest] eqn:Ed; [simpl in Hlen; lia|].
    assert (Hj : dls !! j = Some dl).
    { pose proof (lookup_drop dls j 0) as L. rewrite Ed in L. simpl in L.
      rewrite Nat.add_0_r in L. congruence. }
    assert (Hr : drop (S j) dls = rest).
    { pose proof (drop_S dls dl j Hj) as D. congruence. }
    simpl. unfold report_key_step at 1. simpl. rewrite Nat.add_0_r, Hj.
    rewrite (imap_ext _ (fun i key => ((S j + i)%nat, key))).
    2:{ intros i v _. simpl. f_equal. lia. }
    rewrite IH.
    + rewrite Hr, orb_assoc. reflexivity.
    + rewrite Hr. simpl in Hlen. lia.
Qed.

Lemma check_curve_step_flat (artifacts : list loc) (s : bool)
    (entry : CurveType * option EcCurve) :
  answers_every_point ->
  check_curve_step self info artifacts s entry
  = (batch_effects self info artifacts entry, Return (s || batch_flag info artifacts entry)).
Proof.
  intros Hdl. unfold check_curve_step, batch_effects, batch_flag.
  destruct entry as [curve_id [curve|]]; simpl.
  - pose proof (report_keys_flat (batch_logs info artifacts curve_id curve)
      (batch info artifacts curve_id) 0 s) as F.
    rewrite drop_0 in F. apply F.
    unfold batch_logs. etransitivity; [|apply Hdl]. rewrite length_fmap. lia.
  - rewrite orb_false_r. reflexivity.
Qed.

Lemma private_flat (artifacts : list loc) (l : list (CurveType * option EcCurve)) :
  answers_every_point ->
  for_each_pure (check_curve_step self info artifacts) l false
  = (flat_map (batch_effects self info artifacts) l,
     Return (existsb (batch_flag info artifacts) l)).
Proof.
  intros Hdl.
  rewrite (for_each_pure_flat _ (batch_effects self info artifacts)
             (batch_flag info artifacts)); [reflexivity|].
  intros s v _. apply check_curve_step_flat, Hdl.
Qed.

Lemma reports_on_dl_effects (key k : loc) (dl : option Z) :
  reports_on key (dl_effects self info k dl)
  = if decide (k = key) then dl_reports self dl else [].
Proof. destruct dl; simpl; destruct (decide (k = key)); reflexivity. Qed.

Lemma reports_on_batch (key : loc) (artifacts : list loc) (curve_id : CurveType)
    (curve : EcCurve) :
  reports_on key (batch_effects self info artifacts (curve_id, Some curve))
  = key_reports self key (batch info artifacts curve_id)
      (batch_logs info artifacts curve_id curve).
Proof.
  unfold batch_effects, key_reports. simpl. rewrite reports_on_flat_map.
  apply flat_map_ext. intros [k dl]. apply reports_on_dl_effects.
Qed.

Lemma key_reports_absent (key : loc) (keys : list loc) (dls : list (option Z)) :
  key ∉ keys -> key_reports self key keys dls = [].
Proof.
  revert dls. induction keys as [|k ks IH]; intros dls Hnot; [reflexivity|].
  destruct dls as [|dl dls]; [reflexivity|].
  unfold key_reports. simpl. destruct (decide (k = key)) as [->|Hne].
  - exfalso. apply Hnot. left.
  - apply IH. intros Hin. apply Hnot. right. exact Hin.
Qed.

Lemma reports_on_batch_other (key : loc) (artifacts : list loc)
    (entry : CurveType * option EcCurve) :
  curve_type (info key) <> entry.1 ->
  reports_on key (batch_effects self info artifacts entry) = [].
Proof.
  intros Hne. destruct entry as [curve_id [curve|]]; [|reflexivity].
  rewrite reports_on_batch. apply key_reports_absent.
  unfold batch. rewrite list_elem_of_filter. intros [E _]. apply Hne, E.
Qed.

Lemma reports_on_batches_absent (key : loc) (artifacts : list loc)
    (l : list (CurveType * option EcCurve)) :
  curve_type (info key) ∉ l.*1 ->
  reports_on key (flat_map (batch_effects self info artifacts) l) = [].
Proof.
  induction l as [|entry l IH]; intros Hnot; [reflexivity|].
  simpl. rewrite reports_on_app, reports_on_batch_other, IH; [reflexivity| |].
  - intros Hin. apply Hnot. right. exact Hin.
  - intros E. apply Hnot. rewrite E. left.
Qed.

Lemma reports_on_batches (key : loc) (artifacts : list loc)
    (l : list (CurveType * option EcCurve)) :
  NoDup l.*1 ->
  reports_on key (flat_map (batch_effects self info artifacts) l)
  = match assoc_get l (curve_type (info key)) None with
    | None => []
    | Some curve =>
        key_reports self key (batch info artifacts (curve_type (info key)))
          (batch_logs info artifacts (curve_type (info key)) curve)
    end.
Proof.
  induction l as [|[curve_id v] l IH]; intros Hnd; [reflexivity|].
  simpl in Hnd. pose proof (NoDup_cons_1_1 _ _ Hnd) as Hnot. apply NoDup_cons_1_2 in Hnd.
  simpl. rewrite reports_on_app. destruct (decide (curve_id = _)) as [->|Hne].
  - rewrite reports_on_batches_absent by exact Hnot. rewrite app_nil_r.
    destruct v as [curve|]; [apply reports_on_batch|reflexivity].
  - rewrite reports_on_batch_other by (simpl; congruence). simpl.
    apply IH, Hnd.
Qed.
End PrivateKeyEffects.

(* ================================================================== *)
(** * Counting and reading reports *)
(* ================================================================== *)

Lemma occurrences_elem (key : loc) (l : list loc) :
  key ∈ l <-> (0 < occurrences key l)%nat.
Proof.
  unfold occurrences. induction l as [|k l IH]; simpl.
  - split; [intros Hin; inversion Hin | lia].
  - rewrite filter_cons, elem_of_cons. destruct (decide (k = key)) as [->|Hne]; simpl.
    + split; [lia | auto].
    + rewrite <- IH. split; [intros [E|Hin]; [congruence|exact Hin] | auto].
Qed.

Lemma occurrences_NoDup (key : loc) (l : list loc) :
  NoDup l -> key ∈ l -> occurrences key l = 1%nat.
Proof.
  induction 1 as [|k l Hnot Hnd IH]; intros Hin.
  - inversion Hin.
  - unfold occurrences in *. rewrite filter_cons.
    destruct (decide (k = key)) as [->|Hne]; simpl.
    + pose proof (occurrences_elem key l) as O. unfold occurrences in O.
      destruct (length (filter (fun k => k = key) l)); [reflexivity|].
      exfalso. apply Hnot, O. lia.
    + apply IH. apply elem_of_cons in Hin as [E|Hin]; [congruence|exact Hin].
Qed.

Lemma flat_map_select {B} (key : loc) (f : loc -> list B) (l : list loc) :
  flat_map (fun k => if decide (k = key) then f k else []) l
  = flat_map (fun _ => f key) (filter (fun k => k = key) l).
Proof.
  induction l as [|k l IH]; [reflexivity|].
  simpl. rewrite filter_cons. destruct (decide (k = key)) as [->|Hne]; simpl;
    rewrite IH; reflexivity.
Qed.

Lemma flat_map_single {B C} (r : B) (l : list C) :
  flat_map (fun _ => [r]) l = replicate (length l) r.
Proof. induction l; simpl; congruence. Qed.

Lemma flagged_replicate (k : nat) (r : Report) :
  flagged (replicate k r) = (bool_decide (0 < k)%nat && is_flagging r).
Proof.
  induction k as [|k IH]; [reflexivity|].
  simpl. rewrite IH. destruct (is_flagging r), k; reflexivity.
Qed.

Lemma verdict_replicate (k : nat) (e : TestResultsEntry) :
  (0 < k)%nat -> verdict (replicate k (ResultSet e)) = Some (result e).
Proof.
  induction k as [|k IH]; [lia|]. intros _. simpl.
  destruct k; [reflexivity|]. rewrite IH by lia. reflexivity.
Qed.

Lemma result_writes_replicate (k : nat) (e : TestResultsEntry) :
  result_writes (replicate k (ResultSet e)) = k.
Proof.
  unfold result_writes. induction k as [|k IH]; [reflexivity|].
  cbn [replicate]. rewrite filter_cons_True by reflexivity.
  simpl. rewrite IH. reflexivity.
Qed.

Section SimpleChecks.
Context `{Env} (self : ECKeyCheck).

(** The result [CheckWeakCurve] writes for a key on [curve]. *)
Lemma reports_on_weak_curve (info : loc -> ECKeyInfo) (key k : loc) :
  reports_on key (weak_curve_effects self info k)
  = if decide (k = key) then
      match resolve info key with
      | None => []
      | Some curve =>
          [ResultSet (set_result (_CreateTestResult self) (bit_length (n curve) <? 224))]
      end
    else [].
Proof.
  unfold weak_curve_effects. destruct (decide (k = key)) as [->|Hne].
  - destruct (resolve info key) as [curve|]; [|reflexivity].
    destruct (bit_length (n curve) <? 224); simpl;
      rewrite decide_True by reflexivity; reflexivity.
  - destruct (resolve info k) as [curve|]; [|reflexivity].
    destruct (bit_length (n curve) <? 224); simpl;
      rewrite decide_False by exact Hne; reflexivity.
Qed.

Lemma written_weak_curve (artifacts : list loc) (w : World) (key : loc) :
  written w (CheckWeakCurve.Check self artifacts w).2 key
  = match resolve (infos w) key with
    | None => []
    | Some curve =>
        replicate (occurrences key artifacts)
          (ResultSet (set_result (_CreateTestResult self)
                        (bit_length (n curve) <? 224)))
    end.
Proof.
  rewrite (CheckWeakCurve_performs self w artifacts w (same_infos_refl w)).
  simpl. rewrite written_apply_effects, reports_on_flat_map.
  rewrite (flat_map_ext _ _ (fun k => reports_on_weak_curve (infos w) key k)).
  rewrite (flat_map_select key (fun _ => _)).
  destruct (resolve (infos w) key) as [curve|].
  - apply flat_map_single.
  - induction (filter _ artifacts); auto.
Qed.
Lemma reports_on_valid (info : loc -> ECKeyInfo) (key k : loc) :
  reports_on key (valid_effects self info k)
  = if decide (k = key) then
      [ResultSet (set_result (_CreateTestResult self) (valid_flag info key))]
    else [].
Proof.
  unfold valid_effects, valid_flag. destruct (decide (k = key)) as [->|Hne].
  - destruct (resolve info key) as [curve|]; simpl.
    + destruct (IsValidPublicKey curve _); simpl;
        rewrite decide_True by reflexivity; reflexivity.
    + rewrite decide_True by reflexivity. reflexivity.
  - destruct (resolve info k) as [curve|]; simpl.
    + destruct (IsValidPublicKey curve _); simpl;
        rewrite decide_False by exact Hne; reflexivity.
    + rewrite decide_False by exact Hne. reflexivity.
Qed.

Lemma written_valid (artifacts : list loc) (w : World) (key : loc) :
  written w (CheckValidECKey.Check self artifacts w).2 key
  = replicate (occurrences key artifacts)
      (ResultSet (set_result (_CreateTestResult self) (valid_flag (infos w) key))).
Proof.
  rewrite (CheckValidECKey_performs self w artifacts w (same_infos_refl w)).
  simpl. rewrite written_apply_effects, reports_on_flat_map.
  rewrite (flat_map_ext _ _ (fun k => reports_on_valid (infos w) key k)).
  rewrite (flat_map_select key (fun _ => _)). apply flat_map_single.
Qed.

Lemma logged_valid_unknown (artifacts : list loc) (w : World) (key : loc) :
  key ∈ artifacts -> resolve (infos w) key = None ->
  ("Unknown curve: %s"%string, [ArgInfo (infos w key)])
    ∈ logged w (CheckValidECKey.Check self artifacts w).2.
Proof.
  intros Hin Hres.
  rewrite (CheckValidECKey_performs self w artifacts w (same_infos_refl w)).
  simpl. rewrite logged_apply_effects, warned_flat_map.
  apply list_elem_of_In, in_flat_map. exists key. split.
  - apply list_elem_of_In, Hin.
  - unfold valid_effects. rewrite Hres. left. reflexivity.
Qed.
End SimpleChecks.


(** ** Dictionaries *)

Lemma assoc_get_absent {V} (l : list (CurveType * V)) (k : CurveType) (d : V) :
  k ∉ l.*1 -> assoc_get l k d = d.
Proof.
  induction l as [|[k' v] l IH]; intros Hnot; [reflexivity|].
  simpl. destruct (decide (k' = k)) as [->|Hne].
  - exfalso. apply Hnot. left.
  - apply IH. intros Hin. apply Hnot. right. exact Hin.
Qed.

Lemma assoc_get_elem {V} (l : list (CurveType * V)) (k : CurveType) (v d : V) :
  NoDup l.*1 -> (k, v) ∈ l -> assoc_get l k d = v.
Proof.
  induction l as [|[k' v'] l IH]; intros Hnd Hin; [inversion Hin|].
  simpl in Hnd. pose proof (NoDup_cons_1_1 _ _ Hnd) as Hnot.
  apply NoDup_cons_1_2 in Hnd.
  simpl. apply elem_of_cons in Hin as [E|Hin].
  - injection E as -> ->. rewrite decide_True by reflexivity. reflexivity.
  - destruct (decide (k' = k)) as [->|Hne]; [|apply IH; assumption].
    exfalso. apply Hnot. apply (list_elem_of_fmap_2 fst) in Hin. exact Hin.
Qed.

Lemma assoc_get_Some {V} (l : list (CurveType * option V)) (k : CurveType) (v : V) :
  assoc_get l k None = Some v -> (k, Some v) ∈ l.
Proof.
  induction l as [|[k' v'] l IH]; simpl; [discriminate|].
  destruct (decide (k' = k)) as [->|Hne].
  - intros ->. left.
  - intros E. right. apply IH, E.
Qed.

Section PrivateKeyReports.
Context `{Env} (self : ECKeyCheck).

Lemma written_private (artifacts : list loc) (w : World) (key : loc) :
  answers_every_point ->
  written w (CheckWeakECPrivateKey.Check self artifacts w).2 key
  = match resolve (infos w) key with
    | None => []
    | Some curve =>
        key_reports self key
          (batch (infos w) artifacts (curve_type (infos w key)))
          (batch_logs (infos w) artifacts (curve_type (infos w key)) curve)
    end.
Proof.
  intros Hdl.
  rewrite (CheckWeakECPrivateKey_performs self w artifacts w (same_infos_refl w)).
  simpl. rewrite written_apply_effects, (private_flat self _ _ _ Hdl). simpl.
  apply reports_on_batches, items_unique.
Qed.

Lemma returned_private (artifacts : list loc) (w : World) :
  answers_every_point ->
  (CheckWeakECPrivateKey.Check self artifacts w).1
  = Return (existsb (batch_flag (infos w) artifacts) (items CURVE_FACTORY)).
Proof.
  intros Hdl.
  rewrite (CheckWeakECPrivateKey_performs self w artifacts w (same_infos_refl w)).
  simpl. rewrite (private_flat self _ _ _ Hdl). reflexivity.
Qed.

(** *** The reports for one key of a batch *)

Lemma key_reports_cons (key k : loc) (keys : list loc) (dl : option Z)
    (dls : list (option Z)) :
  key_reports self key (k :: keys) (dl :: dls)
  = (if decide (k = key) then dl_reports self dl else [])
    ++ key_reports self key keys dls.
Proof. reflexivity. Qed.

Lemma key_reports_at (key : loc) (keys : list loc) (dls : list (option Z))
    (i : nat) (dl : option Z) :
  keys !! i = Some key -> dls !! i = Some dl ->
  exists pre post,
    key_reports self key keys dls = pre ++ dl_reports self dl ++ post.
Proof.
  revert dls i. induction keys as [|k keys IH]; intros dls i Hk Hd;
    [discriminate|].
  destruct dls as [|d dls]; [discriminate|]. rewrite key_reports_cons.
  destruct i as [|i]; simpl in Hk, Hd.
  - injection Hk as ->. injection Hd as ->. rewrite decide_True by reflexivity.
    exists [], (key_reports self key keys dls). reflexivity.
  - destruct (IH dls i Hk Hd) as [pre [post E]]. rewrite E.
    exists ((if decide (k = key) then dl_reports self d else []) ++ pre), post.
    rewrite <- app_assoc. reflexivity.
Qed.

Lemma key_reports_unique (key : loc) (keys : list loc) (dls : list (option Z))
    (i : nat) (dl : option Z) :
  NoDup keys -> keys !! i = Some key -> dls !! i = Some dl ->
  key_reports self key keys dls = dl_reports self dl.
Proof.
  revert dls i. induction keys as [|k keys IH]; intros dls i Hnd Hk Hd;
    [discriminate|].
  destruct dls as [|d dls]; [discriminate|]. rewrite key_reports_cons.
  pose proof (NoDup_cons_1_1 _ _ Hnd) as Hnot. apply NoDup_cons_1_2 in Hnd.
  destruct i as [|i]; simpl in Hk, Hd.
  - injection Hk as ->. injection Hd as ->. rewrite decide_True by reflexivity.
    rewrite key_reports_absent by exact Hnot. apply app_nil_r.
  - rewrite decide_False.
    + apply (IH dls i Hnd Hk Hd).
    + intros ->. apply Hnot. apply list_elem_of_lookup. exists i. exact Hk.
Qed.

Lemma key_reports_none (key : loc) (keys : list loc) (dls : list (option Z)) :
  (length keys <= length dls)%nat ->
  (forall i, keys !! i = Some key -> dls !! i = Some None) ->
  key_reports self key keys dls
  = replicate (occurrences key keys) (ResultSet (_CreateTestResult self)).
Proof.
  revert dls. induction keys as [|k keys IH]; intros dls Hlen Hnone;
    [reflexivity|].
  destruct dls as [|d dls]; [simpl in Hlen; lia|]. rewrite key_reports_cons.
  rewrite IH.
  - unfold occurrences. rewrite filter_cons.
    destruct (decide (k = key)) as [->|Hne]; [|reflexivity].
    specialize (Hnone 0%nat eq_refl). injection Hnone as ->. reflexivity.
  - simpl in Hlen. lia.
  - intros i Hi. apply (Hnone (S i)). exact Hi.
Qed.

Lemma result_writes_app (rs1 rs2 : list Report) :
  result_writes (rs1 ++ rs2) = (result_writes rs1 + result_writes rs2)%nat.
Proof. unfold result_writes. rewrite list.filter_app, length_app. reflexivity. Qed.

Lemma result_writes_key_reports (key : loc) (keys : list loc)
    (dls : list (option Z)) :
  (length keys <= length dls)%nat ->
  result_writes (key_reports self key keys dls) = occurrences key keys.
Proof.
  revert dls. induction keys as [|k keys IH]; intros dls Hlen; [reflexivity|].
  destruct dls as [|d dls]; [simpl in Hlen; lia|].
  rewrite key_reports_cons, result_writes_app, IH by (simpl in Hlen; lia).
  unfold occurrences. rewrite filter_cons.
  destruct (decide (k = key)) as [->|Hne]; [|reflexivity].
  destruct d; reflexivity.
Qed.

Lemma attached_app (rs1 rs2 : list Report) :
  attached (rs1 ++ rs2) = attached rs1 ++ attached rs2.
Proof.
  induction rs1 as [|[e|name value] rs1 IH]; simpl; congruence.
Qed.

Lemma attached_key_reports (key : loc) (keys : list loc) (dls : list (option Z))
    (name value : string) :
  (name, value) ∈ attached (key_reports self key keys dls) <->
  name = INFO_NAME_DISCRETE_LOG /\
  exists i v, keys !! i = Some key /\ dls !! i = Some (Some v) /\ value = format_x v.
Proof.
  revert dls. induction keys as [|k keys IH]; intros dls.
  - split; [intros Hin; inversion Hin|]. intros [_ [i [v [Hk _]]]]. discriminate.
  - destruct dls as [|d dls].
    + split; [intros Hin; inversion Hin|]. intros [_ [i [v [_ [Hd _]]]]].
      discriminate.
    + rewrite key_reports_cons, attached_app, elem_of_app, IH. split.
      * intros [Hin|[-> [i [v [Hk [Hd ->]]]]]].
        -- destruct (decide (k = key)) as [->|Hne]; [|inversion Hin].
           destruct d as [v|]; simpl in Hin; [|inversion Hin].
           apply list_elem_of_singleton in Hin. injection Hin as -> ->.
           split; [reflexivity|]. exists 0%nat, v. auto.
        -- split; [reflexivity|]. exists (S i), v. auto.
      * intros [-> [i [v [Hk [Hd ->]]]]]. destruct i as [|i]; simpl in Hk, Hd.
        -- injection Hk as ->. injection Hd as ->. left.
           rewrite decide_True by reflexivity. simpl. left.
        -- right. split; [reflexivity|]. exists i, v. auto.
Qed.

Lemma occurrences_batch (info : loc -> ECKeyInfo) (key : loc)
    (artifacts : list loc) :
  occurrences key (batch info artifacts (curve_type (info key)))
  = occurrences key artifacts.
Proof.
  unfold occurrences, batch. rewrite list_filter_filter. f_equal.
  apply list_filter_iff. intros k. split; [tauto|]. intros ->. auto.
Qed.
End PrivateKeyReports.

(** ** What the weak private key check never does *)

Lemma for_each_pure_Forall {A S} (P : Effect -> Prop)
    (step : S -> A -> list Effect * Outcome S) (l : list A) :
  (forall s v, v ∈ l -> Forall P (step s v).1) ->
  forall s, Forall P (for_each_pure step l s).1.
Proof.
  induction l as [|v l IH]; intros Hstep s; simpl; [constructor|].
  pose proof (Hstep s v ltac:(left)) as Hv.
  destruct (step s v) as [es [s'|e]]; simpl in *; [|exact Hv].
  assert (Hl : Forall P (for_each_pure step l s').1).
  { apply IH. intros s0 v0 Hin. apply Hstep. right. exact Hin. }
  destruct (for_each_pure step l s') as [es' o]. simpl in *.
  apply Forall_app. split; assumption.
Qed.

Lemma reports_on_outside (key : loc) (keys : list loc) (es : list Effect) :
  Forall (tells_within keys) es -> key ∉ keys -> reports_on key es = [].
Proof.
  intros Hes Hnot. induction Hes as [|[r|k r] es He Hes IH]; simpl; auto.
  simpl in He. rewrite decide_False; [exact IH|]. intros ->. exact (Hnot He).
Qed.

Section PrivateKeyFrame.
Context `{Env} (self : ECKeyCheck) (info : loc -> ECKeyInfo).

Lemma flagged_key_reports (key : loc) (keys : list loc) (dls : list (option Z)) :
  flagged (key_reports self key keys dls) = true <->
  exists i v, keys !! i = Some key /\ dls !! i = Some (Some v).
Proof.
  revert dls. induction keys as [|k keys IH]; intros dls.
  - split; [discriminate|]. intros [i [v [Hk _]]]. discriminate.
  - destruct dls as [|d dls].
    + split; [discriminate|]. intros [i [v [_ Hd]]]. discriminate.
    + rewrite key_reports_cons. unfold flagged in *.
      rewrite existsb_app, orb_true_iff, IH. split.
      * intros [Hfl|[i [v [Hk Hd]]]].
        -- destruct (decide (k = key)) as [->|Hne]; [|discriminate].
           destruct d as [v|]; [|discriminate]. exists 0%nat, v. auto.
        -- exists (S i), v. auto.
      * intros [i [v [Hk Hd]]]. destruct i as [|i]; simpl in Hk, Hd.
        -- injection Hk as ->. injection Hd as ->. left.
           rewrite decide_True by reflexivity. reflexivity.
        -- right. exists i, v. auto.
Qed.

Lemma batch_flag_true (artifacts : list loc) (curve_id : CurveType)
    (curve : EcCurve) :
  batch_flag info artifacts (curve_id, Some curve) = true <->
  exists i k v, batch info artifacts curve_id !! i = Some k
                /\ batch_logs info artifacts curve_id curve !! i = Some (Some v).
Proof.
  unfold batch_flag. simpl. rewrite existsb_exists. split.
  - intros [[k d] [Hin Hd]]. apply list_elem_of_In in Hin.
    apply elem_of_lookup_zip_with_1 in Hin as [i [k' [d' [E [Hk Hdl]]]]].
    injection E as -> ->. simpl in Hd. apply bool_decide_eq_true in Hd as [v ->].
    exists i, k', v. auto.
  - intros [i [k [v [Hk Hd]]]]. exists (k, Some v). split.
    + apply list_elem_of_In, list_elem_of_lookup. exists i.
      rewrite lookup_zip_with, Hk. simpl. rewrite Hd. reflexivity.
    + apply bool_decide_eq_true. eexists. reflexivity.
Qed.

Lemma dl_effects_within (key : loc) (dl : option Z) (keys : list loc) :
  key ∈ keys -> Forall (tells_within keys) (dl_effects self info key dl).
Proof. intros Hin. destruct dl; repeat constructor; exact Hin. Qed.

Lemma check_curve_step_within (artifacts : list loc) (s : bool)
    (entry : CurveType * option EcCurve) :
  Forall (tells_within (batch info artifacts entry.1))
    (check_curve_step self info artifacts s entry).1.
Proof.
  unfold check_curve_step. destruct entry as [curve_id [curve|]]; simpl;
    [|constructor].
  apply for_each_pure_Forall. intros s0 [i k] Hin.
  apply elem_of_lookup_imap_1 in Hin as [i' [k' [E Hk]]]. injection E as -> ->.
  unfold report_key_step. simpl.
  destruct (batch_logs info artifacts curve_id curve !! i') as [dl|]; simpl;
    [|constructor].
  apply dl_effects_within. apply list_elem_of_lookup. exists i'. exact Hk.
Qed.

(** The weak private key check reports on resolved keys only. *)
Lemma private_effects_resolved (artifacts : list loc) (key : loc) :
  resolve info key = None ->
  reports_on key
    (for_each_pure (check_curve_step self info artifacts) (items CURVE_FACTORY) false).1
  = [].
Proof.
  intros Hres.
  apply (reports_on_outside key (filter (fun k => resolve info k <> None) artifacts)).
  - apply for_each_pure_Forall. intros s [curve_id v] Hin.
    pose proof (check_curve_step_within artifacts s (curve_id, v)) as W.
    destruct v as [curve|]; [|constructor].
    eapply List.Forall_impl; [|exact W]. intros [r|k r]; simpl; [auto|].
    unfold batch. rewrite !list_elem_of_filter. intros [E Hk]. split; [|exact Hk].
    unfold resolve, dict_get. rewrite E.
    rewrite (assoc_get_elem _ curve_id (Some curve) None (items_unique _) Hin).
    discriminate.
  - rewrite list_elem_of_filter. intros [Hk _]. exact (Hk Hres).
Qed.

(** Keys that do not resolve are in no batch. *)
Lemma batch_without (artifacts : list loc) (key : loc)
    (curve_id : CurveType) (curve : EcCurve) :
  resolve info key = None -> (curve_id, Some curve) ∈ items CURVE_FACTORY ->
  batch info (filter (fun k => k <> key) artifacts) curve_id
  = batch info artifacts curve_id.
Proof.
  intros Hres Hin. unfold batch. rewrite list_filter_filter.
  apply list_filter_iff. intros k. split; [tauto|]. intros E. split; [exact E|].
  intros ->. unfold resolve, dict_get in Hres. rewrite E in Hres.
  rewrite (assoc_get_elem _ curve_id (Some curve) None (items_unique _) Hin) in Hres.
  discriminate.
Qed.

Lemma private_steps_without (artifacts : list loc) (key : loc) :
  resolve info key = None ->
  for_each_pure (check_curve_step self info (filter (fun k => k <> key) artifacts))
    (items CURVE_FACTORY) false
  = for_each_pure (check_curve_step self info artifacts) (items CURVE_FACTORY) false.
Proof.
  intros Hres. apply for_each_pure_ext. intros s [curve_id [curve|]] Hin;
    [|reflexivity].
  unfold check_curve_step, batch_logs. simpl.
  rewrite (batch_without artifacts key curve_id curve Hres Hin). reflexivity.
Qed.

Lemma flat_map_without {B} (f : loc -> list B) (key : loc) (l : list loc) :
  f key = [] -> flat_map f (filter (fun k => k <> key) l) = flat_map f l.
Proof.
  intros E. induction l as [|k l IH]; [reflexivity|].
  rewrite filter_cons. destruct (decide (k <> key)) as [Hne|Heq]; simpl.
  - rewrite IH. reflexivity.
  - apply dec_stable in Heq. subst k. rewrite E, IH. reflexivity.
Qed.

Lemma existsb_without (f : loc -> bool) (key : loc) (l : list loc) :
  f key = false -> existsb f (filter (fun k => k <> key) l) = existsb f l.
Proof.
  intros E. induction l as [|k l IH]; [reflexivity|].
  rewrite filter_cons. destruct (decide (k <> key)) as [Hne|Heq]; simpl.
  - rewrite IH. reflexivity.
  - apply dec_stable in Heq. subst k. rewrite E, IH. reflexivity.
Qed.
End PrivateKeyFrame.

(** ** More on the hexadecimal rendering *)

Lemma format_x_unsigned_lower_hex (v : Z) :
  string_forall is_lower_hex (unsigned_part (format_x v)) = true.
Proof.
  destruct (Z.lt_ge_cases v 0) as [Hneg|Hpos].
  - rewrite (format_x_negative v Hneg). simpl. apply format_x_lower_hex. lia.
  - pose proof (format_x_lower_hex v Hpos) as L.
    destruct (format_x v) as [|c s]; [reflexivity|].
    unfold unsigned_part. destruct (Ascii.eqb_spec c "-") as [->|Hne]; [|exact L].
    discriminate L.
Qed.

(** ** Runs that are given by their effects *)

Lemma performs_repeats_itself (m : Py bool) (w : World) (es : list Effect)
    (o : Outcome bool) :
  (forall w1, same_infos w w1 -> performs m w1 es o) -> repeats_itself m w.
Proof.
  intros Hm. unfold repeats_itself.
  pose proof (Hm w (same_infos_refl w)) as R1. unfold performs in R1. rewrite R1.
  simpl.
  pose proof (Hm (apply_effects es w)
                (same_infos_apply_effects es w w (same_infos_refl w))) as R2.
  unfold performs in R2. rewrite R2. simpl.
  split; [reflexivity|]. split.
  - intros key. rewrite !written_apply_effects. reflexivity.
  - rewrite !logged_apply_effects. reflexivity.
Qed.

Lemma written_test_info (w : World) (es : list Effect) (key : loc) :
  reports_on key es = [] ->
  test_info (objects (apply_effects es w) key) = test_info (objects w key).
Proof. intros E. rewrite test_info_apply_effects, E. apply app_nil_r. Qed.

Lemma demo_answers_every_point (F : dict CurveType (option EcCurve)) :
  @answers_every_point (Demo.env_with F).
Proof.
  intros curve points. simpl. unfold Demo.solver. rewrite length_fmap. lia.
Qed.

(** With a solver that leaves a point without an answer, [discrete_logs[i]]
    raises, and the store is left as it was when it did. *)
Lemma silent_solver_raises :
  @CheckWeakECPrivateKey.Check Demo.env_silent_solver Demo.self [1]%nat Demo.store
  = (Raise IndexError, Demo.store).
Proof. reflexivity. Qed.

Lemma attached_replicate (k : nat) (e : TestResultsEntry) :
  attached (replicate k (ResultSet e)) = [].
Proof. induction k; simpl; auto. Qed.

(** ** The returned flag *)

Lemma any_flag_iff (flag : loc -> bool) (artifacts : list loc)
    (reports : loc -> list Report) :
  (forall key, flagged (reports key)
               = bool_decide (0 < occurrences key artifacts)%nat && flag key) ->
  existsb flag artifacts = true <->
  exists key, key ∈ artifacts /\ flagged (reports key) = true.
Proof.
  intros Hfl. rewrite existsb_exists. split.
  - intros [key [Hin Hflag]]. apply list_elem_of_In in Hin. exists key.
    split; [exact Hin|]. rewrite Hfl, Hflag.
    rewrite bool_decide_eq_true_2 by (apply occurrences_elem, Hin). reflexivity.
  - intros [key [Hin Hflag]]. exists key. split; [apply list_elem_of_In, Hin|].
    rewrite Hfl in Hflag. apply andb_true_iff in Hflag. tauto.
Qed.

Section ReturnedFlag.
Context `{Env} (self : ECKeyCheck).

Lemma valid_returns_any_flagged (artifacts : list loc) (w : World) :
  returns_any_flagged (CheckValidECKey.Check self artifacts) artifacts w.
Proof.
  exists (existsb (valid_flag (infos w)) artifacts). split.
  - rewrite (CheckValidECKey_performs self w artifacts w (same_infos_refl w)).
    reflexivity.
  - apply any_flag_iff. intros key. rewrite written_valid, flagged_replicate.
    reflexivity.
Qed.

Lemma weak_curve_returns_any_flagged (artifacts : list loc) (w : World) :
  returns_any_flagged (CheckWeakCurve.Check self artifacts) artifacts w.
Proof.
  exists (existsb (weak_curve_flag (infos w)) artifacts). split.
  - rewrite (CheckWeakCurve_performs self w artifacts w (same_infos_refl w)).
    reflexivity.
  - apply any_flag_iff. intros key. rewrite written_weak_curve.
    unfold weak_curve_flag. destruct (resolve (infos w) key) as [curve|].
    + rewrite flagged_replicate. reflexivity.
    + symmetry. apply andb_false_r.
Qed.

Lemma private_returns_any_flagged (artifacts : list loc) (w : World) :
  answers_every_point ->
  returns_any_flagged (CheckWeakECPrivateKey.Check self artifacts) artifacts w.
Proof.
  intros Hdl. exists (existsb (batch_flag (infos w) artifacts) (items CURVE_FACTORY)).
  split; [apply (returned_private self artifacts w Hdl)|].
  rewrite existsb_exists. split.
  - intros [[curve_id [curve|]] [Hin Hflag]]; [|discriminate].
    apply list_elem_of_In in Hin.
    apply batch_flag_true in Hflag as [i [k [v [Hk Hd]]]].
    assert (Hkin : k ∈ batch (infos w) artifacts curve_id).
    { apply list_elem_of_lookup. exists i. exact Hk. }
    unfold batch in Hkin. apply list_elem_of_filter in Hkin as [E Hkin].
    exists k. split; [exact Hkin|].
    rewrite (written_private self artifacts w k Hdl). unfold resolve, dict_get.
    rewrite E.
    rewrite (assoc_get_elem _ curve_id (Some curve) None (items_unique _) Hin).
    apply flagged_key_reports. exists i, v. auto.
  - intros [key [Hin Hflag]].
    rewrite (written_private self artifacts w key Hdl) in Hflag.
    destruct (resolve (infos w) key) as [curve|] eqn:Hres; [|discriminate].
    apply flagged_key_reports in Hflag as [i [v [Hk Hd]]].
    exists (curve_type (infos w key), Some curve). split.
    + apply list_elem_of_In, assoc_get_Some, Hres.
    + apply batch_flag_true. exists i, key, v. auto.
Qed.
End ReturnedFlag.

(** ** Artifacts whose curve is unknown *)

Section UnknownCurve.
Context `{Env} (self : ECKeyCheck).

Lemma weak_curve_without (artifacts : list loc) (w : World) (key : loc) :
  resolve (infos w) key = None ->
  CheckWeakCurve.Check self artifacts w
  = CheckWeakCurve.Check self (filter (fun k => k <> key) artifacts) w.
Proof.
  intros Hres.
  rewrite (CheckWeakCurve_performs self w artifacts w (same_infos_refl w)).
  rewrite (CheckWeakCurve_performs self w _ w (same_infos_refl w)).
  rewrite flat_map_without, existsb_without; [reflexivity| |].
  - unfold weak_curve_flag. rewrite Hres. reflexivity.
  - unfold weak_curve_effects. rewrite Hres. reflexivity.
Qed.

Lemma private_without (artifacts : list loc) (w : World) (key : loc) :
  resolve (infos w) key = None ->
  CheckWeakECPrivateKey.Check self artifacts w
  = CheckWeakECPrivateKey.Check self (filter (fun k => k <> key) artifacts) w.
Proof.
  intros Hres.
  rewrite (CheckWeakECPrivateKey_performs self w artifacts w (same_infos_refl w)).
  rewrite (CheckWeakECPrivateKey_performs self w _ w (same_infos_refl w)).
  rewrite (private_steps_without self (infos w) artifacts key Hres). reflexivity.
Qed.

Lemma weak_curve_unknown_untouched (artifacts : list loc) (w : World) (key : loc) :
  resolve (infos w) key = None ->
  test_info (objects (CheckWeakCurve.Check self artifacts w).2 key)
  = test_info (objects w key).
Proof.
  intros Hres.
  rewrite (CheckWeakCurve_performs self w artifacts w (same_infos_refl w)).
  simpl. apply written_test_info. rewrite reports_on_flat_map.
  rewrite (flat_map_ext _ _ (fun k => reports_on_weak_curve self (infos w) key k)).
  rewrite Hres. induction artifacts as [|k l IH]; [reflexivity|].
  simpl. destruct (decide (k = key)); exact IH.
Qed.

Lemma private_unknown_untouched (artifacts : list loc) (w : World) (key : loc) :
  resolve (infos w) key = None ->
  test_info (objects (CheckWeakECPrivateKey.Check self artifacts w).2 key)
  = test_info (objects w key).
Proof.
  intros Hres.
  rewrite (CheckWeakECPrivateKey_performs self w artifacts w (same_infos_refl w)).
  simpl. apply written_test_info.
  apply (private_effects_resolved self (infos w) artifacts key Hres).
Qed.
End UnknownCurve.

(** ** Registry entries without a curve *)

Lemma assoc_get_only_none {V} (l : list (CurveType * option V)) (curve_id : CurveType) :
  (forall v, (curve_id, v) ∈ l -> v = None) -> assoc_get l curve_id None = None.
Proof.
  induction l as [|[k v] l IH]; intros Hnone; [reflexivity|].
  simpl. destruct (decide (k = curve_id)) as [->|Hne].
  - apply Hnone. left.
  - apply IH. intros v' Hin. apply Hnone. right. exact Hin.
Qed.

Lemma assoc_get_filter_none {V} (l : list (CurveType * option V))
    (curve_id k : CurveType) :
  (forall v, (curve_id, v) ∈ l -> v = None) ->
  assoc_get (filter (fun kv => kv.1 <> curve_id) l) k None = assoc_get l k None.
Proof.
  induction l as [|[k' v'] l IH]; intros Hnone; [reflexivity|].
  assert (Hl : forall v, (curve_id, v) ∈ l -> v = None).
  { intros v Hin. apply Hnone. right. exact Hin. }
  rewrite filter_cons. simpl. destruct (decide (k' <> curve_id)) as [Hne|Heq].
  - simpl. rewrite (IH Hl). reflexivity.
  - apply dec_stable in Heq. subst k'. rewrite (IH Hl).
    rewrite (Hnone v' ltac:(left)).
    destruct (decide (curve_id = k)) as [<-|Hne]; [|reflexivity].
    apply assoc_get_only_none, Hl.
Qed.

Lemma dict_only_none {V} (d : dict CurveType (option V)) (curve_id : CurveType) :
  (curve_id, None) ∈ items d -> forall v, (curve_id, v) ∈ items d -> v = None.
Proof.
  intros Hnone v Hin.
  rewrite <- (assoc_get_elem _ curve_id v None (items_unique d) Hin).
  apply (assoc_get_elem _ curve_id None None (items_unique d) Hnone).
Qed.

Lemma for_each_ext {A S} (body body' : S -> A -> Py S) (l : list A) :
  (forall s v w, body s v w = body' s v w) ->
  forall s w, for_each l body s w = for_each l body' s w.
Proof.
  intros Hb. induction l as [|v l IH]; intros s w; [reflexivity|].
  simpl. unfold bind. rewrite Hb. destruct (body' s v w) as [[s'|e] w'];
    [apply IH|reflexivity].
Qed.

Lemma for_each_skip {A S} (P : A -> Prop) `{forall v, Decision (P v)}
    (body : S -> A -> Py S) (l : list A) :
  (forall s v w, v ∈ l -> ~ P v -> body s v w = (Return s, w)) ->
  forall s w, for_each (filter P l) body s w = for_each l body s w.
Proof.
  induction l as [|v l IH]; intros Hb s w; [reflexivity|].
  assert (Hl : forall s v w, v ∈ l -> ~ P v -> body s v w = (Return s, w)).
  { intros s0 v0 w0 Hin. apply Hb. right. exact Hin. }
  rewrite filter_cons. destruct (decide (P v)) as [Hp|Hp]; simpl; unfold bind.
  - destruct (body s v w) as [[s'|e] w']; [apply (IH Hl)|reflexivity].
  - rewrite (Hb s v w ltac:(left) Hp). apply (IH Hl).
Qed.

(* ================================================================== *)
(** * Properties of the checks *)
(* ================================================================== *)

(** C1: for an artifact of the batch whose curve identifier resolves to a
    curve, the result [CheckWeakCurve.Check] writes flags the artifact if
    and only if the bit length of the group order [n] of that curve is
    below 224, that is if and only if [|n| < 2 ^ 223].  The order [2 ^ 223]
    has 224 bits and is not flagged; the order [2 ^ 223 - 1] has 223 bits
    and is flagged. *)
Theorem weak_curve_flagged_iff `{Env} (self : ECKeyCheck) (artifacts : list loc)
    (w : World) (key : loc) (curve : EcCurve) :
  key ∈ artifacts ->
  dict_get CURVE_FACTORY (curve_type (infos w key)) None = Some curve ->
  let rs := written w (CheckWeakCurve.Check self artifacts w).2 key in
  verdict rs = Some (bit_length (n curve) <? 224)
  /\ (flagged rs = true <-> bit_length (n curve) < 224)
  /\ (bit_length (n curve) < 224 <-> Z.abs (n curve) < 2 ^ 223)
  /\ (n curve = 2 ^ 223 -> bit_length (n curve) = 224 /\ flagged rs = false)
  /\ (n curve = 2 ^ 223 - 1 -> bit_length (n curve) = 223 /\ flagged rs = true).
Proof.
  intros Hin Hres rs.
  assert (Hrs : rs = replicate (occurrences key artifacts)
            (ResultSet (set_result (_CreateTestResult self)
                          (bit_length (n curve) <? 224)))).
  { unfold rs. rewrite written_weak_curve. unfold resolve. rewrite Hres. reflexivity. }
  apply occurrences_elem in Hin.
  assert (Hfl : flagged rs = (bit_length (n curve) <? 224)).
  { rewrite Hrs, flagged_replicate. rewrite bool_decide_eq_true_2 by exact Hin.
    reflexivity. }
  split; [rewrite Hrs, (verdict_replicate _ _ Hin); reflexivity|].
  split; [rewrite Hfl; apply Z.ltb_lt|].
  split; [apply (bit_length_lt (n curve) 224); lia|].
  split; intros E; rewrite Hfl, E; split; reflexivity.
Qed.

Lemma weak_curve_flagged_iff_witness :
  let rs := written Demo.store
              (@CheckWeakCurve.Check Demo.env Demo.self [0; 1; 2; 3]%nat Demo.store).2
              1%nat in
  1%nat ∈ [0; 1; 2; 3]%nat
  /\ verdict rs = Some false
  /\ (flagged rs = true <-> bit_length (2 ^ 223) < 224).
Proof.
  assert (Hin : 1%nat ∈ [0; 1; 2; 3]%nat) by (right; left).
  pose proof (@weak_curve_flagged_iff Demo.env Demo.self [0; 1; 2; 3]%nat
                Demo.store 1%nat Demo.strong Hin eq_refl) as [Hv [Hf _]].
  split; [exact Hin|]. split; [exact Hv|exact Hf].
Defined.

(** C2: for every artifact of the batch, the result [CheckValidECKey.Check]
    writes flags the artifact exactly when the registry has no curve for its
    curve identifier or [IsValidPublicKey] is false for its public point.
    The call returns and raises nothing; an artifact with an unknown curve is
    flagged and the warning ["Unknown curve: %s"] is logged for it. *)
Theorem valid_key_flagged_iff `{Env} (self : ECKeyCheck) (artifacts : list loc)
    (w : World) (key : loc) :
  key ∈ artifacts ->
  let out := CheckValidECKey.Check self artifacts w in
  let rs := written w out.2 key in
  let curve := dict_get CURVE_FACTORY (curve_type (infos w key)) None in
  (exists any_weak, out.1 = Return any_weak)
  /\ verdict rs
     = Some match curve with
            | None => true
            | Some c => negb (IsValidPublicKey c (PublicPoint (infos w key)))
            end
  /\ (flagged rs = true <->
      curve = None \/
      exists c, curve = Some c /\ IsValidPublicKey c (PublicPoint (infos w key)) = false)
  /\ (curve = None ->
      flagged rs = true /\
      ("Unknown curve: %s"%string, [ArgInfo (infos w key)]) ∈ logged w out.2).
Proof.
  intros Hin out rs curve.
  assert (Hrs : rs = replicate (occurrences key artifacts)
            (ResultSet (set_result (_CreateTestResult self)
                          (valid_flag (infos w) key)))).
  { unfold rs, out. apply written_valid. }
  pose proof Hin as Hocc. apply occurrences_elem in Hocc.
  assert (Hfl : flagged rs = valid_flag (infos w) key).
  { rewrite Hrs, flagged_replicate. rewrite bool_decide_eq_true_2 by exact Hocc.
    reflexivity. }
  split.
  { unfold out.
    rewrite (CheckValidECKey_performs self w artifacts w (same_infos_refl w)).
    eexists. reflexivity. }
  split; [rewrite Hrs, (verdict_replicate _ _ Hocc); reflexivity|].
  split.
  - rewrite Hfl. unfold valid_flag, resolve. fold curve.
    destruct curve as [c|]; simpl.
    + rewrite negb_true_iff. split.
      * intros E. right. exists c. split; [reflexivity|exact E].
      * intros [E|[c' [E E']]]; [discriminate|]. congruence.
    + split; [left; reflexivity|reflexivity].
  - intros E. split.
    + rewrite Hfl. unfold valid_flag, resolve. fold curve. rewrite E. reflexivity.
    + apply logged_valid_unknown; [exact Hin|exact E].
Qed.

Lemma valid_key_flagged_iff_witness :
  let out := @CheckValidECKey.Check Demo.env Demo.self [0; 1; 2; 3]%nat Demo.store in
  0%nat ∈ [0; 1; 2; 3]%nat
  /\ (exists any_weak, out.1 = Return any_weak)
  /\ verdict (written Demo.store out.2 0%nat) = Some true.
Proof.
  assert (Hin : 0%nat ∈ [0; 1; 2; 3]%nat) by left.
  pose proof (@valid_key_flagged_iff Demo.env Demo.self [0; 1; 2; 3]%nat
                Demo.store 0%nat Hin) as [Hr [Hv _]].
  split; [exact Hin|]. split; [exact Hr|exact Hv].
Defined.

(** C3: [CheckWeakECPrivateKey.Check] puts into the batch of a curve the
    artifacts whose curve identifier equals the identifier of the curve, and
    no others.  A discrete logarithm is attached to a key exactly when it is
    the answer at a position of the batch of the curve of the key at which
    the key stands; the answers are computed with that curve from the points
    of that batch only.  What is written for a key is the same when every
    key on another curve is taken out of the batch. *)
Theorem private_key_attribution `{Env} (self : ECKeyCheck) (artifacts : list loc)
    (w : World) (key : loc) (curve : EcCurve) :
  answers_every_point ->
  dict_get CURVE_FACTORY (curve_type (infos w key)) None = Some curve ->
  let keys :=
    filter (fun k => curve_type (infos w k) = curve_type (infos w key)) artifacts in
  let discrete_logs :=
    ExtendedBatchDL curve ((fun k => PublicPoint (infos w k)) <$> keys) in
  let rs := written w (CheckWeakECPrivateKey.Check self artifacts w).2 key in
  (forall k, k ∈ keys <->
             k ∈ artifacts /\ curve_type (infos w k) = curve_type (infos w key))
  /\ (forall name value,
        (name, value) ∈ attached rs <->
        name = INFO_NAME_DISCRETE_LOG /\
        exists i v, keys !! i = Some key /\ discrete_logs !! i = Some (Some v)
                    /\ value = format_x v)
  /\ (flagged rs = true <->
      exists i v, keys !! i = Some key /\ discrete_logs !! i = Some (Some v))
  /\ rs = written w (CheckWeakECPrivateKey.Check self keys w).2 key.
Proof.
  intros Hdl Hres keys discrete_logs rs.
  assert (Hrs : rs = key_reports self key keys discrete_logs).
  { unfold rs. rewrite (written_private self artifacts w key Hdl).
    unfold resolve. rewrite Hres. reflexivity. }
  split.
  { intros k. unfold keys. rewrite list_elem_of_filter. tauto. }
  split; [intros name value; rewrite Hrs; apply attached_key_reports|].
  split; [rewrite Hrs; apply flagged_key_reports|].
  rewrite Hrs, (written_private self keys w key Hdl). unfold resolve.
  rewrite Hres. unfold batch_logs.
  assert (Hk : batch (infos w) keys (curve_type (infos w key)) = keys).
  { unfold batch, keys. rewrite list_filter_filter. apply list_filter_iff.
    intros k. tauto. }
  rewrite Hk. reflexivity.
Qed.

Lemma private_key_attribution_witness :
  @answers_every_point Demo.env
  /\ ("discrete_log"%string, "abcd"%string)
       ∈ attached (written Demo.store
                     (@CheckWeakECPrivateKey.Check Demo.env Demo.self
                        [0; 1; 2; 3]%nat Demo.store).2 2%nat).
Proof.
  split; [apply demo_answers_every_point|].
  apply (proj1 (proj2 (@private_key_attribution Demo.env Demo.self
                         [0; 1; 2; 3]%nat Demo.store 2%nat Demo.weak
                         (demo_answers_every_point Demo.registry) eq_refl))).
  split; [reflexivity|]. exists 0%nat, 43981. repeat split; reflexivity.
Defined.

(** C4: each of the three [Check] methods returns [True] if and only if it
    flagged at least one artifact of the batch during the call, and so
    returns [False] when it flagged none; on an empty batch it returns
    [False].  [CheckWeakECPrivateKey.Check] indexes the answers of the solver
    by position, so for it the solver is one that answers for every point. *)
Theorem check_returns_any_flagged `{Env} (self : ECKeyCheck) (artifacts : list loc)
    (w : World) :
  returns_any_flagged (CheckValidECKey.Check self artifacts) artifacts w
  /\ returns_any_flagged (CheckWeakCurve.Check self artifacts) artifacts w
  /\ (answers_every_point ->
      returns_any_flagged (CheckWeakECPrivateKey.Check self artifacts) artifacts w)
  /\ (CheckValidECKey.Check self [] w).1 = Return false
  /\ (CheckWeakCurve.Check self [] w).1 = Return false
  /\ (CheckWeakECPrivateKey.Check self [] w).1 = Return false.
Proof.
  split; [apply valid_returns_any_flagged|].
  split; [apply weak_curve_returns_any_flagged|].
  split; [apply private_returns_any_flagged|].
  split; [reflexivity|]. split; [reflexivity|].
  rewrite (CheckWeakECPrivateKey_performs self w [] w (same_infos_refl w)). simpl.
  rewrite (for_each_pure_flat _ (fun _ => []) (fun _ => false)).
  - simpl. f_equal. induction (items CURVE_FACTORY); auto.
  - intros s [curve_id [curve|]] _; unfold check_curve_step; simpl;
      rewrite orb_false_r; reflexivity.
Qed.

Lemma check_returns_any_flagged_witness :
  @answers_every_point Demo.env
  /\ returns_any_flagged
       (@CheckWeakECPrivateKey.Check Demo.env Demo.self [0; 1; 2; 3]%nat)
       [0; 1; 2; 3]%nat Demo.store
  /\ (@CheckWeakECPrivateKey.Check Demo.env Demo.self [0; 1; 2; 3]%nat Demo.store).1
     = Return true.
Proof.
  split; [apply demo_answers_every_point|].
  split; [|reflexivity].
  exact (proj1 (proj2 (proj2
    (@check_returns_any_flagged Demo.env Demo.self [0; 1; 2; 3]%nat Demo.store)))
    (demo_answers_every_point Demo.registry)).
Defined.

(** C5: in [CheckWeakECPrivateKey.Check], with a solver that answers for
    every point, the call returns and raises nothing.  For a key at a
    position of its batch where the solver found the value [v], the check
    attaches [format(v, "x")] under [INFO_NAME_DISCRETE_LOG] and then writes
    a flagged result; that rendering consists of the digits [0-9a-f] after
    an optional sign and reads back as [v].  Where the solver found nothing
    the check writes an unflagged result; a key for which it found nothing at
    any position gets unflagged results only and no diagnostic.  In a batch
    of distinct artifacts these are the only reports for the key. *)
Theorem private_key_outcomes `{Env} (self : ECKeyCheck) (artifacts : list loc)
    (w : World) (key : loc) (curve : EcCurve) :
  answers_every_point ->
  dict_get CURVE_FACTORY (curve_type (infos w key)) None = Some curve ->
  let keys :=
    filter (fun k => curve_type (infos w k) = curve_type (infos w key)) artifacts in
  let discrete_logs :=
    ExtendedBatchDL curve ((fun k => PublicPoint (infos w k)) <$> keys) in
  let out := CheckWeakECPrivateKey.Check self artifacts w in
  let rs := written w out.2 key in
  let found v :=
    [InfoAttached INFO_NAME_DISCRETE_LOG (format_x v);
     ResultSet (set_result (_CreateTestResult self) true)] in
  let not_found := ResultSet (_CreateTestResult self) in
  (exists any_weak, out.1 = Return any_weak)
  /\ (forall i v, keys !! i = Some key -> discrete_logs !! i = Some (Some v) ->
        (exists pre post, rs = pre ++ found v ++ post)
        /\ flagged rs = true
        /\ parse_x (format_x v) = Some v
        /\ string_forall is_lower_hex (unsigned_part (format_x v)) = true)
  /\ (forall i, keys !! i = Some key -> discrete_logs !! i = Some None ->
        not_found ∈ rs)
  /\ ((forall i, keys !! i = Some key -> discrete_logs !! i = Some None) ->
        rs = replicate (occurrences key artifacts) not_found
        /\ attached rs = [] /\ flagged rs = false)
  /\ (NoDup artifacts -> forall i, keys !! i = Some key ->
        match discrete_logs !! i with
        | Some (Some v) => rs = found v
        | Some None => rs = [not_found]
        | None => False
        end).
Proof.
  intros Hdl Hres keys discrete_logs out rs found not_found.
  assert (Hrs : rs = key_reports self key keys discrete_logs).
  { unfold rs, out. rewrite (written_private self artifacts w key Hdl).
    unfold resolve. rewrite Hres. reflexivity. }
  assert (Hlen : (length keys <= length discrete_logs)%nat).
  { unfold discrete_logs. etransitivity; [|apply Hdl]. rewrite length_fmap. lia. }
  split.
  { unfold out. rewrite (returned_private self artifacts w Hdl). eexists.
    reflexivity. }
  split.
  { intros i v Hk Hd. split.
    - rewrite Hrs. apply (key_reports_at self key keys discrete_logs i (Some v) Hk Hd).
    - split; [rewrite Hrs; apply flagged_key_reports; exists i, v; auto|].
      split; [apply parse_format_x|apply format_x_unsigned_lower_hex]. }
  split.
  { intros i Hk Hd.
    destruct (key_reports_at self key keys discrete_logs i None Hk Hd)
      as [pre [post E]].
    rewrite Hrs, E. apply elem_of_app. right. left. }
  split.
  { intros Hnone.
    assert (E : rs = replicate (occurrences key artifacts) not_found).
    { rewrite Hrs, (key_reports_none self key keys discrete_logs Hlen Hnone).
      change keys with (batch (infos w) artifacts (curve_type (infos w key))).
      rewrite (occurrences_batch (infos w) key artifacts). reflexivity. }
    split; [exact E|]. rewrite E. split.
    - apply attached_replicate.
    - rewrite flagged_replicate. apply andb_false_r. }
  intros Hnd i Hk.
  assert (Hi : (i < length discrete_logs)%nat).
  { apply lookup_lt_Some in Hk. lia. }
  apply lookup_lt_is_Some_2 in Hi as [dl Hd]. rewrite Hd.
  pose proof (key_reports_unique self key keys discrete_logs i dl
                (list.NoDup_filter _ _ Hnd) Hk Hd) as E.
  rewrite <- Hrs in E. destruct dl; exact E.
Qed.

Lemma private_key_outcomes_witness :
  @answers_every_point Demo.env /\ NoDup [0; 1; 2; 3]%nat
  /\ written Demo.store
       (@CheckWeakECPrivateKey.Check Demo.env Demo.self [0; 1; 2; 3]%nat Demo.store).2
       2%nat
     = [InfoAttached "discrete_log" "abcd";
        ResultSet {| severity := SEVERITY_CRITICAL;
                     test_name := "CheckWeakECPrivateKey";
                     result := true |}].
Proof.
  pose (Hnd := bool_decide_unpack (NoDup [0; 1; 2; 3]%nat) I).
  split; [apply demo_answers_every_point|]. split; [exact Hnd|].
  exact (proj2 (proj2 (proj2 (proj2
    (@private_key_outcomes Demo.env Demo.self [0; 1; 2; 3]%nat Demo.store 2%nat
       Demo.weak (demo_answers_every_point Demo.registry) eq_refl))))
    Hnd 0%nat eq_refl).
Defined.

(** C6: [CheckWeakCurve.Check] and [CheckWeakECPrivateKey.Check] skip an
    artifact whose curve identifier does not resolve to a curve: the
    [test_info] of the artifact is after the call what it was before, so no
    result is written and no diagnostic attached, and the call has the
    outcome, the returned flag, the warnings and the store of the call on the
    batch without that artifact. *)
Theorem unknown_curve_skipped `{Env} (self : ECKeyCheck) (artifacts : list loc)
    (w : World) (key : loc) :
  dict_get CURVE_FACTORY (curve_type (infos w key)) None = None ->
  let rest := filter (fun k => k <> key) artifacts in
  test_info (objects (CheckWeakCurve.Check self artifacts w).2 key)
    = test_info (objects w key)
  /\ test_info (objects (CheckWeakECPrivateKey.Check self artifacts w).2 key)
     = test_info (objects w key)
  /\ written w (CheckWeakCurve.Check self artifacts w).2 key = []
  /\ written w (CheckWeakECPrivateKey.Check self artifacts w).2 key = []
  /\ CheckWeakCurve.Check self artifacts w = CheckWeakCurve.Check self rest w
  /\ CheckWeakECPrivateKey.Check self artifacts w
     = CheckWeakECPrivateKey.Check self rest w.
Proof.
  intros Hres rest.
  pose proof (weak_curve_unknown_untouched self artifacts w key Hres) as Hw.
  pose proof (private_unknown_untouched self artifacts w key Hres) as Hp.
  split; [exact Hw|]. split; [exact Hp|].
  split; [unfold written; rewrite Hw; apply drop_all|].
  split; [unfold written; rewrite Hp; apply drop_all|].
  split; [apply weak_curve_without, Hres|apply private_without, Hres].
Qed.

Lemma unknown_curve_skipped_witness :
  @dict_get _ _ _ (@CURVE_FACTORY Demo.env)
    (curve_type (infos Demo.store 0%nat)) None = None
  /\ @CheckWeakECPrivateKey.Check Demo.env Demo.self [0; 1; 2; 0]%nat Demo.store
     = @CheckWeakECPrivateKey.Check Demo.env Demo.self [1; 2]%nat Demo.store.
Proof.
  split; [reflexivity|].
  exact (proj2 (proj2 (proj2 (proj2 (proj2
    (@unknown_curve_skipped Demo.env Demo.self [0; 1; 2; 0]%nat Demo.store 0%nat
       eq_refl)))))).
Defined.

(** C7, as stated, fails: [CheckWeakCurve.Check] does not write the result
    slot of an artifact of the batch whose curve is unknown. *)
Lemma result_written_once_counterexample :
  let w' := (@CheckWeakCurve.Check Demo.env Demo.self [0; 1]%nat Demo.store).2 in
  0%nat ∈ [0; 1]%nat
  /\ result_writes (written Demo.store w' 0%nat) = 0%nat
  /\ result_writes (written Demo.store w' 0%nat) <> 1%nat.
Proof.
  split; [left|]. split; [reflexivity|]. vm_compute. discriminate.
Qed.

(** C7, amended: one call of [CheckValidECKey.Check] writes the result slot
    of an artifact once for each occurrence of the artifact in the batch;
    one call of [CheckWeakCurve.Check] or of [CheckWeakECPrivateKey.Check]
    (with a solver that answers for every point) does so when the curve
    identifier of the artifact resolves to a curve, and does not write the
    slot when it does not.  An artifact of a batch of distinct artifacts
    occurs once. *)
Theorem result_written_once_per_occurrence `{Env} (self : ECKeyCheck)
    (artifacts : list loc) (w : World) (key : loc) :
  let known :=
    bool_decide (is_Some (dict_get CURVE_FACTORY (curve_type (infos w key)) None)) in
  result_writes (written w (CheckValidECKey.Check self artifacts w).2 key)
    = occurrences key artifacts
  /\ result_writes (written w (CheckWeakCurve.Check self artifacts w).2 key)
     = (if known then occurrences key artifacts else 0%nat)
  /\ (answers_every_point ->
      result_writes (written w (CheckWeakECPrivateKey.Check self artifacts w).2 key)
      = (if known then occurrences key artifacts else 0%nat))
  /\ (NoDup artifacts -> key ∈ artifacts -> occurrences key artifacts = 1%nat).
Proof.
  intros known. unfold known.
  rewrite written_valid, written_weak_curve. unfold resolve.
  split; [apply result_writes_replicate|].
  split.
  { destruct (dict_get CURVE_FACTORY _ None) as [curve|]; simpl;
      [apply result_writes_replicate|reflexivity]. }
  split; [|apply occurrences_NoDup].
  intros Hdl. rewrite (written_private self _ _ _ Hdl). unfold resolve.
  destruct (dict_get CURVE_FACTORY _ None) as [curve|]; simpl; [|reflexivity].
  rewrite result_writes_key_reports.
  - apply occurrences_batch.
  - unfold batch_logs. etransitivity; [|apply Hdl]. rewrite length_fmap. lia.
Qed.

Lemma result_written_once_per_occurrence_witness :
  @answers_every_point Demo.env
  /\ NoDup [0; 1; 2; 3]%nat /\ 2%nat ∈ [0; 1; 2; 3]%nat
  /\ result_writes
       (written Demo.store
          (@CheckWeakECPrivateKey.Check Demo.env Demo.self [0; 1; 2; 3]%nat
             Demo.store).2 2%nat)
     = 1%nat.
Proof.
  pose (Hnd := bool_decide_unpack (NoDup [0; 1; 2; 3]%nat) I).
  assert (Hin : 2%nat ∈ [0; 1; 2; 3]%nat) by (right; right; left).
  split; [apply demo_answers_every_point|]. split; [exact Hnd|].
  split; [exact Hin|].
  destruct (@result_written_once_per_occurrence Demo.env Demo.self
              [0; 1; 2; 3]%nat Demo.store 2%nat) as [_ [_ [Hp Hocc]]].
  rewrite (Hp (demo_answers_every_point Demo.registry)). exact (Hocc Hnd Hin).
Defined.

(** C8: each of the three checks, run a second time on the batch as the
    first run left it, has the outcome of the first run, so returns the same
    flag, writes the same reports to every artifact, so the same results and
    the same diagnostics, and logs the same warnings. *)
Theorem checks_repeat_themselves `{Env} (self : ECKeyCheck) (artifacts : list loc)
    (w : World) :
  repeats_itself (CheckValidECKey.Check self artifacts) w
  /\ repeats_itself (CheckWeakCurve.Check self artifacts) w
  /\ repeats_itself (CheckWeakECPrivateKey.Check self artifacts) w.
Proof.
  split; [|split]; eapply performs_repeats_itself; intros w1 Hw1.
  - apply (CheckValidECKey_performs self w artifacts w1 Hw1).
  - apply (CheckWeakCurve_performs self w artifacts w1 Hw1).
  - apply (CheckWeakECPrivateKey_performs self w artifacts w1 Hw1).
Qed.

(** C9: what [CheckWeakCurve.Check] writes for an artifact depends on the
    curve identifier of the artifact only: two artifacts with the same curve
    identifier, in any two batches and any two stores, so with any public
    points, are left with the same value in their result slot, or both with
    none. *)
Theorem weak_curve_depends_on_curve_only `{Env} (self : ECKeyCheck)
    (artifacts1 artifacts2 : list loc) (w1 w2 : World) (key1 key2 : loc) :
  key1 ∈ artifacts1 -> key2 ∈ artifacts2 ->
  curve_type (infos w1 key1) = curve_type (infos w2 key2) ->
  let rs1 := written w1 (CheckWeakCurve.Check self artifacts1 w1).2 key1 in
  let rs2 := written w2 (CheckWeakCurve.Check self artifacts2 w2).2 key2 in
  verdict rs1 = verdict rs2 /\ flagged rs1 = flagged rs2.
Proof.
  intros Hin1 Hin2 E rs1 rs2. unfold rs1, rs2. rewrite !written_weak_curve.
  unfold resolve. rewrite E.
  apply occurrences_elem in Hin1. apply occurrences_elem in Hin2.
  destruct (dict_get CURVE_FACTORY _ None) as [curve|]; [|split; reflexivity].
  rewrite !flagged_replicate, !bool_decide_eq_true_2 by assumption.
  rewrite !verdict_replicate by assumption. split; reflexivity.
Qed.

(** The same object in two batches, one of them with other keys around it. *)
Lemma weak_curve_depends_on_curve_only_witness :
  2%nat ∈ [0; 2; 2]%nat /\ 2%nat ∈ [1; 2]%nat
  /\ verdict (written Demo.store
                (@CheckWeakCurve.Check Demo.env Demo.self [0; 2; 2]%nat Demo.store).2
                2%nat)
     = verdict (written Demo.store
                  (@CheckWeakCurve.Check Demo.env Demo.self [1; 2]%nat Demo.store).2
                  2%nat).
Proof.
  assert (Hin1 : 2%nat ∈ [0; 2; 2]%nat) by (right; left).
  assert (Hin2 : 2%nat ∈ [1; 2]%nat) by (right; left).
  split; [exact Hin1|]. split; [exact Hin2|].
  exact (proj1 (@weak_curve_depends_on_curve_only Demo.env Demo.self
                  [0; 2; 2]%nat [1; 2]%nat Demo.store Demo.store 2%nat 2%nat
                  Hin1 Hin2 eq_refl)).
Defined.

(** C10: a registry entry whose identifier is present and whose curve is
    [None] is treated like an absent identifier.  Each of the three checks
    has, on a registry with such an entry, the outcome and the store it has
    on the registry without the identifier; for an artifact with that
    identifier [CheckValidECKey.Check] writes a flagged result and logs
    ["Unknown curve: %s"], and [CheckWeakCurve.Check] and
    [CheckWeakECPrivateKey.Check] leave its [test_info] as it was. *)
Theorem none_entry_like_absent (E : Env) (F' : dict CurveType (option EcCurve))
    (self : ECKeyCheck) (artifacts : list loc) (w : World) (curve_id : CurveType) :
  (curve_id, None) ∈ items (@CURVE_FACTORY E) ->
  items F' = filter (fun kv => kv.1 <> curve_id) (items (@CURVE_FACTORY E)) ->
  let E' := with_factory E F' in
  @CheckValidECKey.Check E self artifacts w
    = @CheckValidECKey.Check E' self artifacts w
  /\ @CheckWeakCurve.Check E self artifacts w
     = @CheckWeakCurve.Check E' self artifacts w
  /\ @CheckWeakECPrivateKey.Check E self artifacts w
     = @CheckWeakECPrivateKey.Check E' self artifacts w
  /\ forall key, key ∈ artifacts -> curve_type (infos w key) = curve_id ->
       let valid := @CheckValidECKey.Check E self artifacts w in
       verdict (written w valid.2 key) = Some true
       /\ ("Unknown curve: %s"%string, [ArgInfo (infos w key)]) ∈ logged w valid.2
       /\ test_info (objects (@CheckWeakCurve.Check E self artifacts w).2 key)
          = test_info (objects w key)
       /\ test_info (objects (@CheckWeakECPrivateKey.Check E self artifacts w).2 key)
          = test_info (objects w key).
Proof.
  intros Hnone HF' E'.
  pose proof (dict_only_none (@CURVE_FACTORY E) curve_id Hnone) as Honly.
  assert (Hget : forall k, @dict_get _ _ _ (@CURVE_FACTORY E') k None
                           = @dict_get _ _ _ (@CURVE_FACTORY E) k None).
  { intros k. unfold dict_get. simpl. rewrite HF'.
    apply assoc_get_filter_none, Honly. }
  split.
  { unfold CheckValidECKey.Check. apply for_each_ext. intros s key w1.
    unfold CheckValidECKey.check_key, bind, get_ec_info. rewrite Hget.
    reflexivity. }
  split.
  { unfold CheckWeakCurve.Check. apply for_each_ext. intros s key w1.
    unfold CheckWeakCurve.check_key, bind, get_ec_info. rewrite Hget.
    reflexivity. }
  split.
  { unfold CheckWeakECPrivateKey.Check. simpl. rewrite HF'. symmetry.
    apply (for_each_skip (fun kv => kv.1 <> curve_id)).
    intros s [k v] w1 Hin Hk. simpl in Hk. apply dec_stable in Hk. subst k.
    rewrite (Honly v Hin). reflexivity. }
  intros key Hin Hkey valid.
  assert (Hres : @resolve E (infos w) key = None).
  { unfold resolve, dict_get. rewrite Hkey.
    apply (assoc_get_elem _ curve_id None None (items_unique _) Hnone). }
  split.
  { unfold valid. rewrite written_valid.
    rewrite verdict_replicate by (apply occurrences_elem, Hin).
    unfold valid_flag. rewrite Hres. reflexivity. }
  split; [apply (logged_valid_unknown self artifacts w key Hin Hres)|].
  split; [apply (weak_curve_unknown_untouched self artifacts w key Hres)|].
  apply (private_unknown_untouched self artifacts w key Hres).
Qed.

Lemma none_entry_like_absent_witness :
  (3, None) ∈ items Demo.registry
  /\ @CheckWeakECPrivateKey.Check Demo.env Demo.self [1; 2; 3]%nat Demo.store
     = @CheckWeakECPrivateKey.Check (Demo.env_with Demo.registry_without_3)
         Demo.self [1; 2; 3]%nat Demo.store
  /\ verdict (written Demo.store
                (@CheckValidECKey.Check Demo.env Demo.self [1; 2; 3]%nat Demo.store).2
                3%nat) = Some true.
Proof.
  assert (Hin : (3, None) ∈ items Demo.registry) by (right; right; left).
  pose proof (none_entry_like_absent Demo.env Demo.registry_without_3 Demo.self
                [1; 2; 3]%nat Demo.store 3 Hin eq_refl) as [_ [_ [Hp Hk]]].
  split; [exact Hin|]. split; [exact Hp|].
  exact (proj1 (Hk 3%nat ltac:(right; right; left) eq_refl)).
Defined.

(* ================================================================== *)
(** * Further properties of the checks *)
(* ================================================================== *)

(** ** What the checks leave alone *)

Lemma objects_apply_effects_outside (es : list Effect) (w : World) (key : loc) :
  reports_on key es = [] -> objects (apply_effects es w) key = objects w key.
Proof.
  revert w. induction es as [|[r|k r] es IH]; intros w E; simpl in *.
  - reflexivity.
  - rewrite (IH _ E). reflexivity.
  - destruct (decide (k = key)) as [->|Hne]; [discriminate|].
    rewrite (IH _ E). simpl. apply fn_lookup_insert_ne. congruence.
Qed.

Lemma reports_on_elem (Q : Report -> Prop) (es : list Effect) (key : loc) (r : Report) :
  Forall (tells_only Q) es -> r ∈ reports_on key es -> Q r.
Proof.
  intros Hes. induction Hes as [|[r'|k r'] es He Hes IH]; simpl; intros Hin.
  - inversion Hin.
  - apply IH, Hin.
  - destruct (decide (k = key)); [|apply IH, Hin].
    apply elem_of_cons in Hin as [->|Hin]; [exact He|apply IH, Hin].
Qed.

Section PrivateKeyEffectsForall.
Context `{Env} (self : ECKeyCheck) (info : loc -> ECKeyInfo).

Lemma private_effects_Forall (P : Effect -> Prop) (artifacts : list loc) :
  (forall key dl, key ∈ artifacts -> Forall P (dl_effects self info key dl)) ->
  Forall P
    (for_each_pure (check_curve_step self info artifacts) (items CURVE_FACTORY) false).1.
Proof.
  intros Hdl. apply for_each_pure_Forall. intros s [curve_id [curve|]] _;
    unfold check_curve_step; simpl; [|constructor].
  apply for_each_pure_Forall. intros s0 [i k] Hin.
  apply elem_of_lookup_imap_1 in Hin as [i' [k' [E Hk]]]. injection E as -> ->.
  unfold report_key_step. simpl.
  destruct (batch_logs info artifacts curve_id curve !! i') as [dl|]; simpl;
    [|constructor].
  apply Hdl. apply (list_elem_of_lookup_2 _ i') in Hk. unfold batch in Hk.
  apply list_elem_of_filter in Hk. tauto.
Qed.

Lemma private_effects_within (artifacts : list loc) :
  Forall (tells_within artifacts)
    (for_each_pure (check_curve_step self info artifacts) (items CURVE_FACTORY) false).1.
Proof.
  apply private_effects_Forall. intros key dl Hin. apply dl_effects_within, Hin.
Qed.
End PrivateKeyEffectsForall.

Lemma flat_map_select_absent {B} (key : loc) (f : loc -> list B) (l : list loc) :
  key ∉ l -> flat_map (fun k => if decide (k = key) then f k else []) l = [].
Proof.
  induction l as [|k l IH]; intros Hnot; [reflexivity|].
  simpl. rewrite decide_False.
  - apply IH. intros Hin. apply Hnot. right. exact Hin.
  - intros ->. apply Hnot. left.
Qed.

(** X1: no check changes the [ec_info] of any object, and an object that
    is not in the batch is after the call exactly what it was before: its
    [test_info] too.  This holds for all three checks, also when
    [CheckWeakECPrivateKey.Check] raises. *)
Theorem checks_leave_the_rest `{Env} (self : ECKeyCheck) (artifacts : list loc)
    (w : World) (key : loc) :
  let valid := CheckValidECKey.Check self artifacts w in
  let weak := CheckWeakCurve.Check self artifacts w in
  let private := CheckWeakECPrivateKey.Check self artifacts w in
  (ec_info (objects valid.2 key) = ec_info (objects w key)
   /\ ec_info (objects weak.2 key) = ec_info (objects w key)
   /\ ec_info (objects private.2 key) = ec_info (objects w key))
  /\ (key ∉ artifacts ->
      objects valid.2 key = objects w key
      /\ objects weak.2 key = objects w key
      /\ objects private.2 key = objects w key).
Proof.
  intros valid weak private. unfold valid, weak, private.
  rewrite (CheckValidECKey_performs self w artifacts w (same_infos_refl w)).
  rewrite (CheckWeakCurve_performs self w artifacts w (same_infos_refl w)).
  rewrite (CheckWeakECPrivateKey_performs self w artifacts w (same_infos_refl w)).
  simpl. split.
  { repeat split; apply (infos_apply_effects _ w key). }
  intros Hnot.
  split; [|split]; apply objects_apply_effects_outside.
  - rewrite reports_on_flat_map.
    rewrite (flat_map_ext _ _ (fun k => reports_on_valid self (infos w) key k)).
    apply (flat_map_select_absent key (fun _ => _)), Hnot.
  - rewrite reports_on_flat_map.
    rewrite (flat_map_ext _ _ (fun k => reports_on_weak_curve self (infos w) key k)).
    apply (flat_map_select_absent key (fun _ => _)), Hnot.
  - apply (reports_on_outside key artifacts); [|exact Hnot].
    apply private_effects_within.
Qed.

Lemma checks_leave_the_rest_witness :
  (5%nat ∉ [0; 1; 2; 3]%nat)
  /\ objects (@CheckWeakECPrivateKey.Check Demo.env Demo.self [0; 1; 2; 3]%nat
                Demo.store).2 5%nat
     = objects Demo.store 5%nat.
Proof.
  pose (Hnot := bool_decide_unpack (5%nat ∉ [0; 1; 2; 3]%nat) I).
  split; [exact Hnot|].
  exact (proj2 (proj2 (proj2
    (@checks_leave_the_rest Demo.env Demo.self [0; 1; 2; 3]%nat Demo.store 5%nat)
    Hnot))).
Defined.

(** ** Whose reports a check writes *)

Lemma private_reports_own `{Env} (self : ECKeyCheck) (artifacts : list loc)
    (w : World) (key : loc) (r : Report) :
  r ∈ written w (CheckWeakECPrivateKey.Check self artifacts w).2 key ->
  own_report self INFO_NAME_DISCRETE_LOG r.
Proof.
  rewrite (CheckWeakECPrivateKey_performs self w artifacts w (same_infos_refl w)).
  simpl. rewrite written_apply_effects.
  apply (reports_on_elem (own_report self INFO_NAME_DISCRETE_LOG)).
  apply private_effects_Forall. intros k [v|] _.
  - repeat constructor. exists v. reflexivity.
  - repeat constructor.
Qed.

Lemma attached_elem (rs : list Report) (name value : string) :
  (name, value) ∈ attached rs <-> InfoAttached name value ∈ rs.
Proof.
  induction rs as [|[e|name' value'] rs IH]; simpl.
  - split; intros Hin; inversion Hin.
  - rewrite IH, elem_of_cons. split; [auto|]. intros [E|Hin]; [discriminate|exact Hin].
  - rewrite !elem_of_cons, IH. split; (intros [E|Hin]; [left; congruence|right; exact Hin]).
Qed.

(** X2: whatever a check writes to an artifact is its own: every result
    carries the severity and the name of the check object that wrote it, and
    the only other reports are diagnostics of the weak private key check
    under [INFO_NAME_DISCRETE_LOG], holding a hexadecimal rendering.  The
    check objects are built with medium severity for [CheckValidECKey] and
    [CheckWeakCurve] and critical severity for [CheckWeakECPrivateKey]. *)
Theorem reports_belong_to_check `{Env} (self : ECKeyCheck) (artifacts : list loc)
    (w : World) (key : loc) (r : Report) :
  (r ∈ written w (CheckValidECKey.Check self artifacts w).2 key ->
   own_report self INFO_NAME_DISCRETE_LOG r)
  /\ (r ∈ written w (CheckWeakCurve.Check self artifacts w).2 key ->
      own_report self INFO_NAME_DISCRETE_LOG r)
  /\ (r ∈ written w (CheckWeakECPrivateKey.Check self artifacts w).2 key ->
      own_report self INFO_NAME_DISCRETE_LOG r)
  /\ (forall name,
        check_severity (CheckValidECKey.init name) = SEVERITY_MEDIUM
        /\ check_severity (CheckWeakCurve.init name) = SEVERITY_MEDIUM
        /\ check_severity (CheckWeakECPrivateKey.init name) = SEVERITY_CRITICAL).
Proof.
  split; [|split; [|split]].
  - rewrite written_valid. intros [-> _]%elem_of_replicate. split; reflexivity.
  - rewrite written_weak_curve. destruct (resolve (infos w) key) as [curve|].
    + intros [-> _]%elem_of_replicate. split; reflexivity.
    + intros Hin. inversion Hin.
  - apply private_reports_own.
  - intros name. repeat split.
Qed.

Lemma reports_belong_to_check_witness :
  own_report Demo.self "discrete_log"
    (ResultSet {| severity := SEVERITY_CRITICAL;
                  test_name := "CheckWeakECPrivateKey";
                  result := true |}).
Proof.
  apply (proj1 (proj2 (proj2
    (@reports_belong_to_check Demo.env Demo.self [0; 1; 2; 3]%nat Demo.store 2%nat
       _)))).
  right. left.
Defined.

(** X3: [CheckValidECKey.Check] and [CheckWeakCurve.Check] attach no
    diagnostic to any artifact.  [CheckWeakECPrivateKey.Check] attaches none
    to an artifact whose curve is unknown, and what it attaches is always
    under [INFO_NAME_DISCRETE_LOG]; this needs no assumption on the solver. *)
Theorem only_private_key_check_attaches `{Env} (self : ECKeyCheck)
    (artifacts : list loc) (w : World) (key : loc) :
  attached (written w (CheckValidECKey.Check self artifacts w).2 key) = []
  /\ attached (written w (CheckWeakCurve.Check self artifacts w).2 key) = []
  /\ (dict_get CURVE_FACTORY (curve_type (infos w key)) None = None ->
      attached (written w (CheckWeakECPrivateKey.Check self artifacts w).2 key) = [])
  /\ (forall name value,
        (name, value)
          ∈ attached (written w (CheckWeakECPrivateKey.Check self artifacts w).2 key) ->
        name = INFO_NAME_DISCRETE_LOG /\ exists v, value = format_x v).
Proof.
  split; [rewrite written_valid; apply attached_replicate|].
  split.
  { rewrite written_weak_curve. destruct (resolve (infos w) key);
      [apply attached_replicate|reflexivity]. }
  split.
  { intros Hres. unfold written.
    rewrite (private_unknown_untouched self artifacts w key Hres), drop_all.
    reflexivity. }
  intros name value Hin. apply attached_elem in Hin.
  exact (private_reports_own self artifacts w key _ Hin).
Qed.

Lemma only_private_key_check_attaches_witness :
  attached (written Demo.store
              (@CheckWeakECPrivateKey.Check Demo.env Demo.self [0; 1; 2; 3]%nat
                 Demo.store).2 0%nat) = [].
Proof.
  exact (proj1 (proj2 (proj2
    (@only_private_key_check_attaches Demo.env Demo.self [0; 1; 2; 3]%nat
       Demo.store 0%nat))) eq_refl).
Defined.

(** ** The warnings of the two per-artifact checks *)

Lemma filter_ext_elem {B} (P Q : B -> Prop) `{!forall v, Decision (P v)}
    `{!forall v, Decision (Q v)} (l : list B) :
  (forall v, v ∈ l -> P v <-> Q v) -> filter P l = filter Q l.
Proof.
  induction l as [|v l IH]; intros Hpq; [reflexivity|].
  assert (Hl : filter P l = filter Q l).
  { apply IH. intros v0 Hin. apply Hpq. right. exact Hin. }
  pose proof (Hpq v ltac:(left)) as Hv. rewrite !filter_cons.
  destruct (decide (P v)), (decide (Q v)); try tauto; rewrite Hl; reflexivity.
Qed.

Lemma flat_map_omap {B C} (f : B -> option C) (l : list B) :
  flat_map (fun v => match f v with Some r => [r] | None => [] end) l = omap f l.
Proof.
  induction l as [|v l IH]; [reflexivity|].
  simpl. rewrite IH. destruct (f v); reflexivity.
Qed.

Lemma length_omap_filter {B C} (f : B -> option C) (l : list B) :
  length (omap f l) = length (filter (fun v => is_Some (f v)) l).
Proof.
  rewrite <- flat_map_omap. induction l as [|v l IH]; [reflexivity|].
  simpl. destruct (f v) as [r|] eqn:E.
  - rewrite filter_cons_True by (rewrite E; eexists; reflexivity).
    simpl. rewrite IH. reflexivity.
  - rewrite filter_cons_False by (rewrite E; intros [? ?]; discriminate).
    exact IH.
Qed.

Section Warnings.
Context `{Env} (self : ECKeyCheck).

Lemma warned_valid (info : loc -> ECKeyInfo) (key : loc) :
  warned (valid_effects self info key)
  = match valid_warning (info key) with Some r => [r] | None => [] end.
Proof.
  unfold valid_effects, valid_warning, resolve.
  destruct (dict_get CURVE_FACTORY _ None) as [curve|]; [|reflexivity].
  destruct (IsValidPublicKey curve _); reflexivity.
Qed.

Lemma warned_weak_curve (info : loc -> ECKeyInfo) (key : loc) :
  warned (weak_curve_effects self info key)
  = match weak_curve_warning (info key) with Some r => [r] | None => [] end.
Proof.
  unfold weak_curve_effects, weak_curve_warning, resolve.
  destruct (dict_get CURVE_FACTORY _ None) as [curve|]; [|reflexivity].
  destruct (bit_length (n curve) <? 224); reflexivity.
Qed.

Lemma valid_flag_warning (info : loc -> ECKeyInfo) (key : loc) :
  valid_flag info key = true <-> is_Some (valid_warning (info key)).
Proof.
  unfold valid_flag, valid_warning, resolve.
  destruct (dict_get CURVE_FACTORY _ None) as [curve|].
  - destruct (IsValidPublicKey curve _); simpl; split; try discriminate.
    + intros [? ?]. discriminate.
    + eexists. reflexivity.
    + reflexivity.
  - split; [eexists|]; reflexivity.
Qed.

Lemma weak_curve_flag_warning (info : loc -> ECKeyInfo) (key : loc) :
  weak_curve_flag info key = true <-> is_Some (weak_curve_warning (info key)).
Proof.
  unfold weak_curve_flag, weak_curve_warning, resolve.
  destruct (dict_get CURVE_FACTORY _ None) as [curve|].
  - destruct (bit_length (n curve) <? 224); split; try discriminate.
    + eexists. reflexivity.
    + reflexivity.
    + intros [? ?]. discriminate.
  - split; [discriminate|]. intros [? ?]. discriminate.
Qed.
End Warnings.

(** X4: [CheckValidECKey.Check] logs, in the order of the batch, one
    warning for each artifact it flags and none for the others:
    ["Unknown curve: %s"] when the curve identifier does not resolve,
    ["Invalid public key: %s"] when the point is not valid, each with the
    [ec_info] of the artifact.  There are as many warnings as flagged
    positions of the batch. *)
Theorem valid_key_warnings `{Env} (self : ECKeyCheck) (artifacts : list loc)
    (w : World) :
  let out := CheckValidECKey.Check self artifacts w in
  logged w out.2 = omap (fun key => valid_warning (infos w key)) artifacts
  /\ length (logged w out.2)
     = length (filter (fun key => flagged (written w out.2 key) = true) artifacts).
Proof.
  intros out.
  assert (E : logged w out.2 = omap (fun key => valid_warning (infos w key)) artifacts).
  { unfold out.
    rewrite (CheckValidECKey_performs self w artifacts w (same_infos_refl w)).
    simpl. rewrite logged_apply_effects, warned_flat_map.
    rewrite (flat_map_ext _ _ (warned_valid self (infos w))).
    apply flat_map_omap. }
  split; [exact E|]. rewrite E, length_omap_filter. f_equal.
  apply filter_ext_elem. intros key Hin. unfold out.
  rewrite written_valid, flagged_replicate.
  rewrite bool_decide_eq_true_2 by (apply occurrences_elem, Hin). simpl.
  symmetry. apply valid_flag_warning.
Qed.

(** X5: [CheckWeakCurve.Check] logs, in the order of the batch, the
    warning ["Weak curve: %s"] for each artifact it flags and nothing else;
    in particular nothing for an artifact whose curve is unknown.  There are
    as many warnings as flagged positions of the batch. *)
Theorem weak_curve_warnings `{Env} (self : ECKeyCheck) (artifacts : list loc)
    (w : World) :
  let out := CheckWeakCurve.Check self artifacts w in
  logged w out.2 = omap (fun key => weak_curve_warning (infos w key)) artifacts
  /\ length (logged w out.2)
     = length (filter (fun key => flagged (written w out.2 key) = true) artifacts).
Proof.
  intros out.
  assert (E : logged w out.2
              = omap (fun key => weak_curve_warning (infos w key)) artifacts).
  { unfold out.
    rewrite (CheckWeakCurve_performs self w artifacts w (same_infos_refl w)).
    simpl. rewrite logged_apply_effects, warned_flat_map.
    rewrite (flat_map_ext _ _ (warned_weak_curve self (infos w))).
    apply flat_map_omap. }
  split; [exact E|]. rewrite E, length_omap_filter. f_equal.
  apply filter_ext_elem. intros key Hin. unfold out.
  rewrite written_weak_curve. rewrite <- weak_curve_flag_warning.
  unfold weak_curve_flag. destruct (resolve (infos w) key) as [curve|].
  - rewrite flagged_replicate.
    rewrite bool_decide_eq_true_2 by (apply occurrences_elem, Hin). reflexivity.
  - simpl. reflexivity.
Qed.

(** ** Splitting and reordering a batch *)

Lemma existsb_Permutation {B} (f : B -> bool) (l1 l2 : list B) :
  l1 ≡ₚ l2 -> existsb f l1 = existsb f l2.
Proof.
  induction 1 as [|v l1 l2 _ IH|v1 v2 l|l1 l2 l3 _ IH1 _ IH2]; simpl.
  - reflexivity.
  - rewrite IH. reflexivity.
  - destruct (f v1), (f v2); reflexivity.
  - congruence.
Qed.

Lemma occurrences_Permutation (key : loc) (l1 l2 : list loc) :
  l1 ≡ₚ l2 -> occurrences key l1 = occurrences key l2.
Proof. intros Hp. unfold occurrences. rewrite Hp. reflexivity. Qed.

(** X6: for [CheckValidECKey.Check] and [CheckWeakCurve.Check], checking
    a batch [artifacts1 ++ artifacts2] leaves the store that checking
    [artifacts1] and then [artifacts2] leaves, and returns the disjunction of
    the two flags. *)
Theorem per_artifact_checks_split `{Env} (self : ECKeyCheck)
    (artifacts1 artifacts2 : list loc) (w : World) :
  (let r1 := CheckValidECKey.Check self artifacts1 w in
   let r2 := CheckValidECKey.Check self artifacts2 r1.2 in
   exists any_weak1 any_weak2,
     r1.1 = Return any_weak1 /\ r2.1 = Return any_weak2
     /\ CheckValidECKey.Check self (artifacts1 ++ artifacts2) w
        = (Return (any_weak1 || any_weak2), r2.2))
  /\ (let r1 := CheckWeakCurve.Check self artifacts1 w in
      let r2 := CheckWeakCurve.Check self artifacts2 r1.2 in
      exists any_weak1 any_weak2,
        r1.1 = Return any_weak1 /\ r2.1 = Return any_weak2
        /\ CheckWeakCurve.Check self (artifacts1 ++ artifacts2) w
           = (Return (any_weak1 || any_weak2), r2.2)).
Proof.
  split.
  - rewrite (CheckValidECKey_performs self w artifacts1 w (same_infos_refl w)). simpl.
    rewrite (CheckValidECKey_performs self w artifacts2 _
               (same_infos_apply_effects _ w w (same_infos_refl w))). simpl.
    rewrite (CheckValidECKey_performs self w _ w (same_infos_refl w)).
    eexists _, _. split; [reflexivity|]. split; [reflexivity|].
    rewrite flat_map_app, existsb_app, apply_effects_app. reflexivity.
  - rewrite (CheckWeakCurve_performs self w artifacts1 w (same_infos_refl w)). simpl.
    rewrite (CheckWeakCurve_performs self w artifacts2 _
               (same_infos_apply_effects _ w w (same_infos_refl w))). simpl.
    rewrite (CheckWeakCurve_performs self w _ w (same_infos_refl w)).
    eexists _, _. split; [reflexivity|]. split; [reflexivity|].
    rewrite flat_map_app, existsb_app, apply_effects_app. reflexivity.
Qed.

(** X7: for [CheckValidECKey.Check] and [CheckWeakCurve.Check] the order
    of the artifacts in the batch does not matter: on a reordered batch the
    call returns the same flag and writes the same reports to every
    artifact, and the warnings logged are the same up to their order. *)
Theorem per_artifact_checks_reorder `{Env} (self : ECKeyCheck)
    (artifacts1 artifacts2 : list loc) (w : World) :
  artifacts1 ≡ₚ artifacts2 ->
  (let r1 := CheckValidECKey.Check self artifacts1 w in
   let r2 := CheckValidECKey.Check self artifacts2 w in
   r1.1 = r2.1
   /\ (forall key, written w r1.2 key = written w r2.2 key)
   /\ logged w r1.2 ≡ₚ logged w r2.2)
  /\ (let r1 := CheckWeakCurve.Check self artifacts1 w in
      let r2 := CheckWeakCurve.Check self artifacts2 w in
      r1.1 = r2.1
      /\ (forall key, written w r1.2 key = written w r2.2 key)
      /\ logged w r1.2 ≡ₚ logged w r2.2).
Proof.
  intros Hp. split.
  - split; [|split].
    + rewrite !(CheckValidECKey_performs self w _ w (same_infos_refl w)). simpl.
      rewrite (existsb_Permutation _ _ _ Hp). reflexivity.
    + intros key. rewrite !written_valid, (occurrences_Permutation key _ _ Hp).
      reflexivity.
    + rewrite !(CheckValidECKey_performs self w _ w (same_infos_refl w)). simpl.
      rewrite !logged_apply_effects, !warned_flat_map.
      apply Permutation_flat_map, Hp.
  - split; [|split].
    + rewrite !(CheckWeakCurve_performs self w _ w (same_infos_refl w)). simpl.
      rewrite (existsb_Permutation _ _ _ Hp). reflexivity.
    + intros key. rewrite !written_weak_curve, (occurrences_Permutation key _ _ Hp).
      reflexivity.
    + rewrite !(CheckWeakCurve_performs self w _ w (same_infos_refl w)). simpl.
      rewrite !logged_apply_effects, !warned_flat_map.
      apply Permutation_flat_map, Hp.
Qed.

Lemma per_artifact_checks_reorder_witness :
  [0; 1; 2]%nat ≡ₚ [2; 1; 0]%nat
  /\ (@CheckValidECKey.Check Demo.env Demo.self [0; 1; 2]%nat Demo.store).1
     = (@CheckValidECKey.Check Demo.env Demo.self [2; 1; 0]%nat Demo.store).1.
Proof.
  pose (Hp := bool_decide_unpack ([0; 1; 2]%nat ≡ₚ [2; 1; 0]%nat) I).
  split; [exact Hp|].
  exact (proj1 (proj1
    (@per_artifact_checks_reorder Demo.env Demo.self [0; 1; 2]%nat [2; 1; 0]%nat
       Demo.store Hp))).
Defined.

(** ** When the weak private key check raises *)

Lemma for_each_pure_returns_iff {A S} (step : S -> A -> list Effect * Outcome S)
    (ok : A -> Prop) (l : list A) :
  (forall s v, v ∈ l -> (exists s', (step s v).2 = Return s') <-> ok v) ->
  forall s, (exists s', (for_each_pure step l s).2 = Return s') <-> Forall ok l.
Proof.
  induction l as [|v l IH]; intros Hstep s; simpl.
  - split; [constructor|]. intros _. eexists. reflexivity.
  - pose proof (Hstep s v ltac:(left)) as Hv.
    assert (Hl : forall s, (exists s', (for_each_pure step l s).2 = Return s')
                           <-> Forall ok l).
    { apply IH. intros s0 v0 Hin. apply Hstep. right. exact Hin. }
    destruct (step s v) as [es [s1|e]]; simpl in Hv.
    + specialize (Hl s1). destruct (for_each_pure step l s1) as [es' o]. simpl in *.
      rewrite Hl. split.
      * intros Hall. constructor; [apply Hv; eexists; reflexivity|exact Hall].
      * intros Hall. inversion Hall. assumption.
    + simpl. split.
      * intros [s' E]. discriminate.
      * intros Hall. inversion Hall as [|? ? Hok _]. apply Hv in Hok as [s' E].
        discriminate.
Qed.

Lemma enumerate_answered {B C} (keys : list B) (dls : list C) :
  Forall (fun ik => is_Some (dls !! ik.1)) (enumerate keys)
  <-> (length keys <= length dls)%nat.
Proof.
  unfold enumerate. rewrite list.Forall_forall. split.
  - intros Hall. destruct (decide (length keys = 0%nat)) as [E|E]; [lia|].
    destruct (lookup_lt_is_Some_2 keys (length keys - 1) ltac:(lia)) as [k Hk].
    pose proof (Hall (length keys - 1, k)%nat
                  (elem_of_lookup_imap_2 pair keys k _ Hk)) as Hd.
    simpl in Hd. apply lookup_lt_is_Some_1 in Hd. lia.
  - intros Hlen [i k] Hin. apply elem_of_lookup_imap_1 in Hin as [i' [k' [E Hk]]].
    injection E as -> ->. simpl. apply lookup_lt_is_Some_2.
    apply lookup_lt_Some in Hk. lia.
Qed.

Section PrivateKeyRaises.
Context `{Env} (self : ECKeyCheck) (info : loc -> ECKeyInfo).

Lemma check_curve_step_returns_iff (artifacts : list loc) (s : bool)
    (entry : CurveType * option EcCurve) :
  (exists s', (check_curve_step self info artifacts s entry).2 = Return s')
  <-> answered info artifacts entry.
Proof.
  unfold check_curve_step, answered. destruct entry as [curve_id [curve|]]; simpl.
  - rewrite <- enumerate_answered. apply for_each_pure_returns_iff.
    intros s0 [i k] _. unfold report_key_step. simpl.
    destruct (batch_logs info artifacts curve_id curve !! i) as [dl|]; simpl.
    + split; [intros _; eexists; reflexivity|]. intros _. eexists. reflexivity.
    + split; [intros [s' E]; discriminate|]. intros [dl E]. discriminate.
  - split; [auto|]. intros _. eexists. reflexivity.
Qed.
End PrivateKeyRaises.

Lemma answered_dec `{Env} (info : loc -> ECKeyInfo) (artifacts : list loc)
    (entry : CurveType * option EcCurve) :
  {answered info artifacts entry} + {~ answered info artifacts entry}.
Proof.
  unfold answered. destruct entry as [curve_id [curve|]]; simpl.
  - apply le_dec.
  - left. exact I.
Qed.

(** X8: [CheckWeakECPrivateKey.Check] returns if and only if, for every
    registry entry that has a curve, the solver gives at least as many
    answers as the batch of that curve has keys; it raises [IndexError] if
    and only if the answers are fewer than the keys for some such entry. *)
Theorem private_key_check_raises_iff `{Env} (self : ECKeyCheck)
    (artifacts : list loc) (w : World) :
  let out := CheckWeakECPrivateKey.Check self artifacts w in
  let short curve_id curve :=
    let keys := filter (fun k => curve_type (infos w k) = curve_id) artifacts in
    (length (ExtendedBatchDL curve ((fun k => PublicPoint (infos w k)) <$> keys))
     < length keys)%nat in
  ((exists any_weak, out.1 = Return any_weak) <->
   forall curve_id curve,
     (curve_id, Some curve) ∈ items CURVE_FACTORY -> ~ short curve_id curve)
  /\ (out.1 = Raise IndexError <->
      exists curve_id curve,
        (curve_id, Some curve) ∈ items CURVE_FACTORY /\ short curve_id curve).
Proof.
  intros out short.
  assert (Hret : (exists any_weak, out.1 = Return any_weak)
                 <-> Forall (answered (infos w) artifacts) (items CURVE_FACTORY)).
  { unfold out.
    rewrite (CheckWeakECPrivateKey_performs self w artifacts w (same_infos_refl w)).
    simpl. apply for_each_pure_returns_iff.
    intros s entry _. apply check_curve_step_returns_iff. }
  split.
  - rewrite Hret, list.Forall_forall. split.
    + intros Hall curve_id curve Hin Hshort.
      specialize (Hall _ Hin). unfold answered, short in *. simpl in *.
      unfold batch_logs, batch in Hall. lia.
    + intros Hall [curve_id [curve|]] Hin; unfold answered; simpl; [|exact I].
      specialize (Hall curve_id curve Hin). unfold short in Hall.
      unfold batch_logs, batch. lia.
  - split.
    + intros Hraise.
      destruct (list.Forall_Exists_dec _ _ (answered_dec (infos w) artifacts)
                  (items CURVE_FACTORY)) as [Hall|Hex].
      * apply Hret in Hall as [any_weak E]. congruence.
      * apply list.Exists_exists in Hex as [[curve_id [curve|]] [Hin Hno]].
        -- exists curve_id, curve. split; [exact Hin|].
           unfold answered in Hno. simpl in Hno. unfold short.
           unfold batch_logs, batch in Hno. lia.
        -- exfalso. apply Hno. exact I.
    + intros [curve_id [curve [Hin Hshort]]].
      destruct out.1 as [any_weak|[]] eqn:E; [|reflexivity].
      exfalso. pose proof (proj1 Hret (ex_intro _ any_weak eq_refl)) as Hall.
      rewrite list.Forall_forall in Hall. specialize (Hall _ Hin).
      unfold answered, short in *. simpl in *. unfold batch_logs, batch in Hall. lia.
Qed.

(** ** The checks side by side *)

(** X9: an artifact of the batch that [CheckWeakCurve.Check] leaves
    without a result is one that [CheckValidECKey.Check] on the same batch
    flags and reports with ["Unknown curve: %s"]; the same holds for an
    artifact that [CheckWeakECPrivateKey.Check] leaves without a result,
    with a solver that answers for every point. *)
Theorem skipped_artifacts_are_flagged_invalid `{Env} (self self' : ECKeyCheck)
    (artifacts : list loc) (w : World) (key : loc) :
  key ∈ artifacts ->
  let valid := CheckValidECKey.Check self' artifacts w in
  let reported_unknown :=
    verdict (written w valid.2 key) = Some true
    /\ ("Unknown curve: %s"%string, [ArgInfo (infos w key)]) ∈ logged w valid.2 in
  (written w (CheckWeakCurve.Check self artifacts w).2 key = [] -> reported_unknown)
  /\ (answers_every_point ->
      written w (CheckWeakECPrivateKey.Check self artifacts w).2 key = [] ->
      reported_unknown).
Proof.
  intros Hin valid reported_unknown.
  pose proof Hin as Hocc. apply occurrences_elem in Hocc.
  assert (Hunknown : resolve (infos w) key = None -> reported_unknown).
  { intros Hres. split.
    - unfold valid. rewrite written_valid, (verdict_replicate _ _ Hocc).
      unfold valid_flag. rewrite Hres. reflexivity.
    - apply (logged_valid_unknown self' artifacts w key Hin Hres). }
  split.
  - rewrite written_weak_curve. destruct (resolve (infos w) key) as [curve|];
      [|intros _; apply Hunknown; reflexivity].
    destruct (occurrences key artifacts); [lia|discriminate].
  - intros Hdl. rewrite (written_private self artifacts w key Hdl).
    destruct (resolve (infos w) key) as [curve|];
      [|intros _; apply Hunknown; reflexivity].
    intros E. apply (f_equal result_writes) in E.
    rewrite result_writes_key_reports, occurrences_batch in E.
    + simpl in E. unfold result_writes in E. simpl in E. lia.
    + unfold batch_logs. etransitivity; [|apply Hdl]. rewrite length_fmap. lia.
Qed.

Lemma skipped_artifacts_are_flagged_invalid_witness :
  0%nat ∈ [0; 1]%nat
  /\ written Demo.store
       (@CheckWeakCurve.Check Demo.env Demo.self [0; 1]%nat Demo.store).2 0%nat = []
  /\ verdict (written Demo.store
                (@CheckValidECKey.Check Demo.env Demo.self [0; 1]%nat Demo.store).2
                0%nat) = Some true.
Proof.
  assert (Hin : 0%nat ∈ [0; 1]%nat) by left.
  split; [exact Hin|]. split; [reflexivity|].
  exact (proj1 (proj1
    (@skipped_artifacts_are_flagged_invalid Demo.env Demo.self Demo.self
       [0; 1]%nat Demo.store 0%nat Hin) eq_refl)).
Defined.

Lemma traces_undisturbed (m1 m2 : Py bool) (w : World) :
  traces m1 w -> traces m2 w -> undisturbed m1 m2 w.
Proof.
  intros [es1 [o1 H1]] [es2 [o2 H2]]. unfold undisturbed.
  pose proof (H1 w (same_infos_refl w)) as R1. unfold performs in R1. rewrite R1.
  pose proof (H2 w (same_infos_refl w)) as R2. unfold performs in R2. rewrite R2.
  simpl.
  pose proof (H2 (apply_effects es1 w)
                (same_infos_apply_effects es1 w w (same_infos_refl w))) as R3.
  unfold performs in R3. rewrite R3. simpl.
  split; [reflexivity|]. split.
  - intros key. rewrite !written_apply_effects. reflexivity.
  - rewrite !logged_apply_effects. reflexivity.
Qed.

Lemma checks_trace `{Env} (self : ECKeyCheck) (artifacts : list loc) (w : World)
    (m : Py bool) :
  m ∈ checks self artifacts -> traces m w.
Proof.
  unfold checks. rewrite !elem_of_cons. intros [->|[->|[->|Hin]]];
    [| | |inversion Hin]; eexists _, _; intros w1 Hw1.
  - apply (CheckValidECKey_performs self w artifacts w1 Hw1).
  - apply (CheckWeakCurve_performs self w artifacts w1 Hw1).
  - apply (CheckWeakECPrivateKey_performs self w artifacts w1 Hw1).
Qed.

(** X10: the checks do not disturb each other.  Any of the three checks,
    run after any of the three checks (on any batch, with any check
    object), has the outcome it has when run alone and writes the same
    reports and logs the same warnings. *)
Theorem checks_do_not_disturb_each_other `{Env} (self1 self2 : ECKeyCheck)
    (artifacts1 artifacts2 : list loc) (w : World) (m1 m2 : Py bool) :
  m1 ∈ checks self1 artifacts1 -> m2 ∈ checks self2 artifacts2 ->
  undisturbed m1 m2 w.
Proof.
  intros Hm1 Hm2. apply traces_undisturbed.
  - apply (checks_trace self1 artifacts1 w m1 Hm1).
  - apply (checks_trace self2 artifacts2 w m2 Hm2).
Qed.

Lemma checks_do_not_disturb_each_other_witness :
  undisturbed
    (@CheckValidECKey.Check Demo.env Demo.self [0; 1; 2]%nat)
    (@CheckWeakECPrivateKey.Check Demo.env Demo.self [1; 2; 3]%nat)
    Demo.store.
Proof.
  apply (@checks_do_not_disturb_each_other Demo.env Demo.self Demo.self
           [0; 1; 2]%nat [1; 2; 3]%nat).
  - left.
  - right. right. left.
Defined.

(** X11: [CheckWeakECPrivateKey.Check] consults the solver for the
    registry entries that have a curve and a non-empty batch only, with the
    points of that batch: a solver that agrees with [ExtendedBatchDL] on
    those inputs gives the same outcome and the same store, whatever it
    answers elsewhere, for an empty list of points for instance. *)
Theorem solver_consulted_on_batches_only (E : Env)
    (solver : EcCurve -> list Point -> list (option Z))
    (self : ECKeyCheck) (artifacts : list loc) (w : World) :
  (forall curve_id curve,
     (curve_id, Some curve) ∈ items (@CURVE_FACTORY E) ->
     let keys := filter (fun k => curve_type (infos w k) = curve_id) artifacts in
     keys <> [] ->
     solver curve ((fun k => @PublicPoint E (infos w k)) <$> keys)
     = @ExtendedBatchDL E curve ((fun k => @PublicPoint E (infos w k)) <$> keys)) ->
  @CheckWeakECPrivateKey.Check (with_solver E solver) self artifacts w
  = @CheckWeakECPrivateKey.Check E self artifacts w.
Proof.
  intros Hagree.
  rewrite (@CheckWeakECPrivateKey_performs (with_solver E solver) self w artifacts w
             (same_infos_refl w)).
  rewrite (@CheckWeakECPrivateKey_performs E self w artifacts w (same_infos_refl w)).
  simpl.
  rewrite (for_each_pure_ext
             (@check_curve_step (with_solver E solver) self (infos w) artifacts)
             (@check_curve_step E self (infos w) artifacts)); [reflexivity|].
  intros s [curve_id [curve|]] Hin; [|reflexivity].
  unfold check_curve_step, batch_logs. simpl.
  destruct (batch (infos w) artifacts curve_id) as [|k ks] eqn:Ek; [reflexivity|].
  specialize (Hagree curve_id curve Hin). simpl in Hagree.
  unfold batch in Ek. rewrite Ek in Hagree. rewrite Hagree by discriminate.
  reflexivity.
Qed.

Lemma solver_consulted_on_batches_only_witness :
  @CheckWeakECPrivateKey.Check (with_solver Demo.env eager_solver) Demo.self
    [0; 2]%nat Demo.store
  = @CheckWeakECPrivateKey.Check Demo.env Demo.self [0; 2]%nat Demo.store.
Proof.
  apply (solver_consulted_on_batches_only Demo.env eager_solver).
  intros curve_id curve _ keys Hne. destruct keys; [contradiction|reflexivity].
Defined.

(** ** Warnings and diagnostics of the weak private key check *)

Section PrivateKeyWarnings.
Context `{Env} (self : ECKeyCheck) (info : loc -> ECKeyInfo).

Lemma warned_dl_effects (key : loc) (dl : option Z) :
  warned (dl_effects self info key dl)
  = match dl with
    | Some v => [("Discrete logarithm found: %s %s"%string,
                  [ArgStr (format_x v); ArgInfo (info key)])]
    | None => []
    end.
Proof. destruct dl; reflexivity. Qed.

(** The warnings of the batches are those of the found answers. *)
Lemma warned_batches (artifacts : list loc) (l : list (CurveType * option EcCurve))
    (r : LogRecord) :
  r ∈ warned (flat_map (batch_effects self info artifacts) l) <->
  exists curve_id curve i key v,
    (curve_id, Some curve) ∈ l
    /\ batch info artifacts curve_id !! i = Some key
    /\ batch_logs info artifacts curve_id curve !! i = Some (Some v)
    /\ r = ("Discrete logarithm found: %s %s"%string,
            [ArgStr (format_x v); ArgInfo (info key)]).
Proof.
  rewrite warned_flat_map, list_elem_of_In, in_flat_map. split.
  - intros [[curve_id [curve|]] [Hin Hr]]; [|inversion Hr].
    unfold batch_effects in Hr. simpl in Hr. rewrite warned_flat_map in Hr.
    apply in_flat_map in Hr as [[key dl] [Hzip Hr]].
    apply list_elem_of_In, elem_of_lookup_zip_with_1 in Hzip
      as [i [key' [dl' [E [Hk Hd]]]]]. injection E as -> ->.
    rewrite warned_dl_effects in Hr. simpl in Hr.
    destruct dl' as [v|]; [|inversion Hr]. destruct Hr as [<-|[]].
    exists curve_id, curve, i, key', v. repeat split; try assumption.
    apply list_elem_of_In, Hin.
  - intros [curve_id [curve [i [key [v [Hin [Hk [Hd ->]]]]]]]].
    exists (curve_id, Some curve). split; [apply list_elem_of_In, Hin|].
    unfold batch_effects. simpl. rewrite warned_flat_map.
    apply in_flat_map. exists (key, Some v). split.
    + apply list_elem_of_In, list_elem_of_lookup. exists i.
      rewrite lookup_zip_with, Hk. simpl. rewrite Hd. reflexivity.
    + left. reflexivity.
Qed.
End PrivateKeyWarnings.

(** X12: with a solver that answers for every point, the warnings and the
    diagnostics of [CheckWeakECPrivateKey.Check] agree: for every
    diagnostic attached to an artifact the warning
    ["Discrete logarithm found: %s %s"] with the same rendering and the
    [ec_info] of the artifact is logged, and every warning logged is such a
    warning for an artifact of the batch that got this diagnostic. *)
Theorem private_key_warnings_match_diagnostics `{Env} (self : ECKeyCheck)
    (artifacts : list loc) (w : World) :
  answers_every_point ->
  let out := CheckWeakECPrivateKey.Check self artifacts w in
  let warning key value : LogRecord :=
    ("Discrete logarithm found: %s %s"%string,
     [ArgStr value; ArgInfo (infos w key)]) in
  (forall key value,
     (INFO_NAME_DISCRETE_LOG, value) ∈ attached (written w out.2 key) ->
     warning key value ∈ logged w out.2)
  /\ (forall r, r ∈ logged w out.2 ->
        exists key value,
          key ∈ artifacts /\ r = warning key value
          /\ (INFO_NAME_DISCRETE_LOG, value) ∈ attached (written w out.2 key)).
Proof.
  intros Hdl out warning.
  assert (Hlog : logged w out.2
                 = warned (flat_map (batch_effects self (infos w) artifacts)
                             (items CURVE_FACTORY))).
  { unfold out.
    rewrite (CheckWeakECPrivateKey_performs self w artifacts w (same_infos_refl w)).
    simpl. rewrite logged_apply_effects, (private_flat self _ _ _ Hdl). reflexivity. }
  split.
  - intros key value. unfold out. rewrite (written_private self artifacts w key Hdl).
    destruct (resolve (infos w) key) as [curve|] eqn:Hres;
      [|intros Hin; inversion Hin].
    intros [_ [i [v [Hk [Hd ->]]]]]%attached_key_reports.
    fold out. rewrite Hlog. apply warned_batches.
    exists (curve_type (infos w key)), curve, i, key, v.
    split; [apply assoc_get_Some, Hres|]. auto.
  - intros r. rewrite Hlog.
    intros [curve_id [curve [i [key [v [Hin [Hk [Hd ->]]]]]]]]%warned_batches.
    assert (Hkey : key ∈ batch (infos w) artifacts curve_id).
    { apply list_elem_of_lookup. exists i. exact Hk. }
    unfold batch in Hkey. apply list_elem_of_filter in Hkey as [E Hkey].
    exists key, (format_x v). split; [exact Hkey|]. split; [reflexivity|].
    unfold out. rewrite (written_private self artifacts w key Hdl).
    unfold resolve, dict_get. rewrite E.
    rewrite (assoc_get_elem _ curve_id (Some curve) None (items_unique _) Hin).
    apply attached_key_reports. split; [reflexivity|]. exists i, v. auto.
Qed.

Lemma private_key_warnings_match_diagnostics_witness :
  @answers_every_point Demo.env
  /\ ("Discrete logarithm found: %s %s"%string,
      [ArgStr "abcd"; ArgInfo (infos Demo.store 2%nat)])
       ∈ logged Demo.store
           (@CheckWeakECPrivateKey.Check Demo.env Demo.self [0; 1; 2; 3]%nat
              Demo.store).2.
Proof.
  split; [apply demo_answers_every_point|].
  apply (proj1 (@private_key_warnings_match_diagnostics Demo.env Demo.self
                  [0; 1; 2; 3]%nat Demo.store
                  (demo_answers_every_point Demo.registry))).
  left.
Defined.

(** X13: what [CheckValidECKey.Check] writes for an artifact depends on
    the [ec_info] of the artifact only: two artifacts with the same
    [ec_info], in any two batches and any two stores, are left with the same
    value in their result slot. *)
Theorem valid_key_depends_on_key_only `{Env} (self : ECKeyCheck)
    (artifacts1 artifacts2 : list loc) (w1 w2 : World) (key1 key2 : loc) :
  key1 ∈ artifacts1 -> key2 ∈ artifacts2 ->
  infos w1 key1 = infos w2 key2 ->
  let rs1 := written w1 (CheckValidECKey.Check self artifacts1 w1).2 key1 in
  let rs2 := written w2 (CheckValidECKey.Check self artifacts2 w2).2 key2 in
  verdict rs1 = verdict rs2 /\ flagged rs1 = flagged rs2.
Proof.
  intros Hin1 Hin2 E rs1 rs2. unfold rs1, rs2. rewrite !written_valid.
  apply occurrences_elem in Hin1. apply occurrences_elem in Hin2.
  assert (Hflag : valid_flag (infos w1) key1 = valid_flag (infos w2) key2).
  { unfold valid_flag, resolve. rewrite E. reflexivity. }
  rewrite !flagged_replicate, !bool_decide_eq_true_2 by assumption.
  rewrite !verdict_replicate by assumption. simpl. rewrite Hflag.
  split; reflexivity.
Qed.

Lemma valid_key_depends_on_key_only_witness :
  2%nat ∈ [2]%nat /\ 2%nat ∈ [0; 2]%nat
  /\ verdict (written Demo.store
                (@CheckValidECKey.Check Demo.env Demo.self [2]%nat Demo.store).2
                2%nat)
     = verdict (written Demo.store
                  (@CheckValidECKey.Check Demo.env Demo.self [0; 2]%nat Demo.store).2
                  2%nat).
Proof.
  assert (Hin1 : 2%nat ∈ [2]%nat) by left.
  assert (Hin2 : 2%nat ∈ [0; 2]%nat) by (right; left).
  split; [exact Hin1|]. split; [exact Hin2|].
  exact (proj1 (@valid_key_depends_on_key_only Demo.env Demo.self [2]%nat
                  [0; 2]%nat Demo.store Demo.store 2%nat 2%nat Hin1 Hin2 eq_refl)).
Defined.
